(** * MRContent: media-processing orchestration, embedded in Rocq

    A shallow embedding of the parts of the MRContent service that decide
    how many processing tasks a content record needs, track the outstanding
    tasks per record, dispatch the requests and fold the results back into
    the stored record:

    - [models/mrcontent.go]                 : [Media], [MRContent];
    - [controllers/callback_handler.go]     : [processMediaResult],
      [updateMediaField], the tracker ([TrackProcessingStart],
      [TrackProcessingComplete], [GetProcessingStatus]) and
      [CountMediaTasks];
    - [controllers/mrcontent_controller.go] : [mergeMediaByKey];
    - [main.go] (NATS part)                 : [ProcessMediaForContent],
      [processImage], [publishToNATS].

    Conventions of the embedding.

    - A Go [int] is a [Z] in the 64-bit signed range; every arithmetic
      operation of the source is followed by [int_wrap].
    - A Go [string] is a [string] (a sequence of bytes).
    - A Go slice is [option (list A)]: [None] is the [nil] slice, [Some l]
      a non-nil slice with elements [l] (the source tests [== nil] once).
    - [map[string]int] and the MongoDB collection are [gmap]s.
    - Code that returns [error] lives in the monad [Go]: state passing over
      [World] with an early exit carrying the error; [Ok tt] is [nil].
    - The environment (database faults, wall clock, message bus) is part
      of [World]; the code reads it, it never chooses it.
    - [log.Printf] and [utils.LogAudit] write to sinks none of the modelled
      functions read; they are left out.
    - The tracker's mutex is held around every access of the table; the
      embedding runs one operation at a time, so locking has no effect
      there and interleavings are not part of the model. *)

From Stdlib Require Import ZArith String Ascii List Lia Permutation.
From stdpp Require Import base gmap strings list fin_maps.

Local Open Scope string_scope.
Local Open Scope list_scope.
Local Open Scope Z_scope.

(* ===================================================================== *)
(** * Go values *)
(* ===================================================================== *)

Module GoInt.

Definition min_int : Z := - 2 ^ 63.
Definition max_int : Z := 2 ^ 63 - 1.

(** Two's-complement wrap-around of a 64-bit signed [int]. *)
Definition int_wrap (z : Z) : Z := (z + 2 ^ 63) mod 2 ^ 64 - 2 ^ 63.

Definition is_int (z : Z) : Prop := min_int <= z <= max_int.

Definition int_add (a b : Z) : Z := int_wrap (a + b).
Definition int_mul (a b : Z) : Z := int_wrap (a * b).
(** [x++] and [x--]. *)
Definition int_incr (a : Z) : Z := int_add a 1.
Definition int_decr (a : Z) : Z := int_wrap (a - 1).

End GoInt.
Export GoInt.

Module GoString.

(** [strings.HasPrefix(s, prefix)]. *)
Definition HasPrefix (s prefix : string) : bool := String.prefix prefix s.

(** [s == ""] and [s != ""]. *)
Definition is_empty (s : string) : bool := String.eqb s "".
Definition non_empty (s : string) : bool := negb (is_empty s).

End GoString.
Export GoString.

Module GoSlice.

(** [None] is the nil slice. *)
Definition slice (A : Type) : Type := option (list A).

(** The elements a [range] loop visits, in order. *)
Definition elems {A} (s : slice A) : list A :=
  match s with Some l => l | None => [] end.

(** [len(s)]. *)
Definition len {A} (s : slice A) : nat := length (elems s).

(** [s == nil]. *)
Definition is_nil {A} (s : slice A) : bool :=
  match s with None => true | Some _ => false end.

(** [append(s, x)]: never nil. *)
Definition append {A} (s : slice A) (x : A) : slice A := Some (elems s ++ [x]).

End GoSlice.
Export GoSlice.

(* ===================================================================== *)
(** * models/mrcontent.go *)
(* ===================================================================== *)

Module Models.

(** [primitive.ObjectID] is a [[12]byte]; it is kept as the 96-bit
    number its bytes spell in big-endian order. *)
Definition ObjectID : Type := N.

(** [time.Time], as a count of nanoseconds. *)
Definition Time : Type := Z.

Record Media : Type := mkMedia {
  Key : string;
  Value : string
}.

Record MRContent : Type := mkMRContent {
  ID : ObjectID;
  OrganizationID : ObjectID;
  UserID : ObjectID;
  Name : string;
  RefID : string;
  RenderType : string;
  Images : slice Media;
  Videos : slice Media;
  Objects_3D : slice Media;
  HasAlpha : bool;
  Orientation : string;
  Status : string;
  IsActive : bool;
  CreatedAt : Time;
  UpdatedAt : Time
}.

#[export] Instance Media_eq_dec : EqDecision Media.
Proof. solve_decision. Defined.

#[export] Instance MRContent_eq_dec : EqDecision MRContent.
Proof. solve_decision. Defined.

(** The keys of a media list, in list order. *)
Definition keys (l : list Media) : list string := Key <$> l.

End Models.
Export Models.

(* ===================================================================== *)
(** * The MongoDB driver's ObjectID conversions *)
(* ===================================================================== *)

Module Primitive.

(** Value of one hexadecimal digit, either case. *)
Definition hex_digit (c : ascii) : option N :=
  let n := N_of_ascii c in
  if ((48 <=? n) && (n <=? 57))%N then Some (n - 48)%N
  else if ((97 <=? n) && (n <=? 102))%N then Some (n - 87)%N
  else if ((65 <=? n) && (n <=? 70))%N then Some (n - 55)%N
  else None.

Fixpoint decode_hex (s : string) (acc : N) : option N :=
  match s with
  | EmptyString => Some acc
  | String c s' =>
      match hex_digit c with
      | Some d => decode_hex s' (16 * acc + d)%N
      | None => None
      end
  end.

Definition hex_char (d : N) : ascii :=
  if (d <? 10)%N then ascii_of_N (48 + d) else ascii_of_N (87 + d).

Fixpoint hex_digits (k : nat) (n : N) (acc : string) : string :=
  match k with
  | O => acc
  | S k' => hex_digits k' (n / 16)%N (String (hex_char (n mod 16)%N) acc)
  end.

(** [ObjectID.Hex()]: 24 lower-case digits. *)
Definition Hex (o : ObjectID) : string := hex_digits 24 o "".

End Primitive.
Export Primitive.

(* ===================================================================== *)
(** * Messages exchanged with the media processor *)
(* ===================================================================== *)

Module Messages.

(** [TranscodeRequest] of the NATS part of main.go. *)
Record TranscodeRequest : Type := mkTranscodeRequest {
  VideoURL : string;
  ImageURL : string;
  AlphaVideoURL : string;
  req_ContentID : string;
  CallbackURL : string;
  CallbackTopic : string;
  req_OrganizationID : string
}.

(** [MediaProcessResult] of callback_handler.go. *)
Record MediaProcessResult : Type := mkMediaProcessResult {
  ContentID : string;
  OriginalURL : string;
  ProcessedURL : string;
  HlsURL : string;
  DashURL : string;
  MediaType : string;
  ProcessingType : string;
  res_Orientation : string;
  res_HasAlpha : bool;
  Success : bool;
  Error : string;
  Timestamp : Z
}.

End Messages.
Export Messages.

(* ===================================================================== *)
(** * The world the service runs in, and the [Go] monad *)
(* ===================================================================== *)

Module Env.

Inductive error : Type :=
| ErrInvalidHex                 (* primitive.ErrInvalidHex *)
| ErrNoDocuments                (* mongo.ErrNoDocuments *)
| ErrDatabase                   (* time-out or transport failure *)
| ErrPublish                    (* nc.Publish failed *)
| ErrNatsConnection             (* GetNATS failed *)
| ErrMissingRequiredFields      (* "missing required fields: ..." *)
| ErrInvalidContentID (e : error)   (* "invalid content ID format: %w" *)
| ErrFindingContent (e : error)     (* "error finding content: %w" *)
| ErrUpdatingContent (e : error).   (* "error updating content: %w" *)

Record World : Type := mkWorld {
  (** [mediaTracker.processingTasks] *)
  processingTasks : gmap string Z;
  (** the collection [oms_mrexperiences], by [_id] *)
  documents : gmap ObjectID MRContent;
  (** outcome of the database calls still to come: [true] is a call
      that fails (time-out, lost connection); past the end of the list
      every call is answered *)
  db_faults : list bool;
  (** what [time.Now()] returns *)
  clock : Time;
  (** [GetNATS] returns an error *)
  nats_down : bool;
  (** [nc.Publish] refuses this message on this subject *)
  publish_fails : string -> TranscodeRequest -> bool;
  (** messages handed to the bus, oldest first *)
  published : list (string * TranscodeRequest)
}.

Definition set_processingTasks (f : gmap string Z -> gmap string Z) (w : World) : World :=
  mkWorld (f (processingTasks w)) (documents w) (db_faults w) (clock w)
          (nats_down w) (publish_fails w) (published w).

Definition set_documents (f : gmap ObjectID MRContent -> gmap ObjectID MRContent)
    (w : World) : World :=
  mkWorld (processingTasks w) (f (documents w)) (db_faults w) (clock w)
          (nats_down w) (publish_fails w) (published w).

Definition set_db_faults (fs : list bool) (w : World) : World :=
  mkWorld (processingTasks w) (documents w) fs (clock w)
          (nats_down w) (publish_fails w) (published w).

Definition add_published (m : string * TranscodeRequest) (w : World) : World :=
  mkWorld (processingTasks w) (documents w) (db_faults w) (clock w)
          (nats_down w) (publish_fails w) (published w ++ [m]).

Inductive result (A : Type) : Type :=
| Ok (a : A)
| Err (e : error).
Arguments Ok {A} a.
Arguments Err {A} e.

(** A Go function with access to the process and its collaborators. *)
Definition Go (A : Type) : Type := World -> result A * World.

Definition ret {A} (a : A) : Go A := fun w => (Ok a, w).

(** [return err] *)
Definition fail {A} (e : error) : Go A := fun w => (Err e, w).

Definition bind {A B} (m : Go A) (k : A -> Go B) : Go B :=
  fun w =>
    match m w with
    | (Ok a, w') => k a w'
    | (Err e, w') => (Err e, w')
    end.

(** [if err := f(); err != nil { log.Printf(...) }]: the error is
    logged and the caller goes on. *)
Definition logged {A} (m : Go A) : Go unit :=
  fun w => (Ok tt, snd (m w)).

(** [fmt.Errorf("...: %w", err)] around a failing call. *)
Definition wrapped {A} (wrap : error -> error) (m : Go A) : Go A :=
  fun w =>
    match m w with
    | (Ok a, w') => (Ok a, w')
    | (Err e, w') => (Err (wrap e), w')
    end.

Definition lift {A} (r : result A) : Go A := fun w => (r, w).

Definition gets {A} (f : World -> A) : Go A := fun w => (Ok (f w), w).

Definition modify (f : World -> World) : Go unit := fun w => (Ok tt, f w).

(** The world a call leaves behind, and the error it returns. *)
Definition exec {A} (m : Go A) (w : World) : World := snd (m w).

Definition returned {A} (m : Go A) (w : World) : result A := fst (m w).

(** [for i := 0; i < n; i++ { body }] for a body that cannot exit the
    loop. *)
Fixpoint times (n : nat) (body : Go unit) : Go unit :=
  match n with
  | O => ret tt
  | S n' => bind body (fun _ => times n' body)
  end.

(** [for _, x := range l { body x }], same proviso. *)
Fixpoint for_each {A} (l : list A) (body : A -> Go unit) : Go unit :=
  match l with
  | [] => ret tt
  | x :: l' => bind (body x) (fun _ => for_each l' body)
  end.

End Env.
Export Env.

Notation "x <~ c1 ;; c2" := (bind c1 (fun x => c2))
  (at level 100, c1 at next level, right associativity).
Notation "c1 ;;; c2" := (bind c1 (fun _ => c2))
  (at level 100, right associativity).

(* ===================================================================== *)
(** * The document store, as the service uses it *)
(* ===================================================================== *)

Module Mongo.

(** [primitive.ObjectIDFromHex]: exactly 24 hexadecimal digits. The
    driver has one error for a wrong length and another for a byte that
    is no digit; the service treats them alike and they are one here. *)
Definition ObjectIDFromHex (s : string) : result ObjectID :=
  if Nat.eqb (String.length s) 24 then
    match decode_hex s 0%N with
    | Some o => Ok o
    | None => Err ErrInvalidHex
    end
  else Err ErrInvalidHex.

(** The filters the service passes to [UpdateOne]: [bson.M{"_id": id}]
    with an optional ["status": s]. *)
Record Filter : Type := mkFilter {
  flt_id : ObjectID;
  flt_status : option string
}.

(** A [bson.M{"$set": ...}] document: one optional entry per field the
    service ever sets. *)
Record SetDoc : Type := mkSetDoc {
  set_status : option string;
  set_updated_at : option Time;
  set_orientation : option string;
  set_has_alpha : option bool;
  set_images : option (slice Media);
  set_videos : option (slice Media);
  set_objects_3d : option (slice Media)
}.

Definition empty_set : SetDoc :=
  mkSetDoc None None None None None None None.

Definition with_status (s : string) (u : SetDoc) : SetDoc :=
  mkSetDoc (Some s) (set_updated_at u) (set_orientation u) (set_has_alpha u)
           (set_images u) (set_videos u) (set_objects_3d u).
Definition with_updated_at (t : Time) (u : SetDoc) : SetDoc :=
  mkSetDoc (set_status u) (Some t) (set_orientation u) (set_has_alpha u)
           (set_images u) (set_videos u) (set_objects_3d u).
Definition with_orientation (s : string) (u : SetDoc) : SetDoc :=
  mkSetDoc (set_status u) (set_updated_at u) (Some s) (set_has_alpha u)
           (set_images u) (set_videos u) (set_objects_3d u).
Definition with_has_alpha (b : bool) (u : SetDoc) : SetDoc :=
  mkSetDoc (set_status u) (set_updated_at u) (set_orientation u) (Some b)
           (set_images u) (set_videos u) (set_objects_3d u).
Definition with_images (l : slice Media) (u : SetDoc) : SetDoc :=
  mkSetDoc (set_status u) (set_updated_at u) (set_orientation u) (set_has_alpha u)
           (Some l) (set_videos u) (set_objects_3d u).
Definition with_videos (l : slice Media) (u : SetDoc) : SetDoc :=
  mkSetDoc (set_status u) (set_updated_at u) (set_orientation u) (set_has_alpha u)
           (set_images u) (Some l) (set_objects_3d u).
Definition with_objects_3d (l : slice Media) (u : SetDoc) : SetDoc :=
  mkSetDoc (set_status u) (set_updated_at u) (set_orientation u) (set_has_alpha u)
           (set_images u) (set_videos u) (Some l).

Definition or_keep {A} (new : option A) (old : A) : A :=
  match new with Some a => a | None => old end.

(** The document after [$set]. *)
Definition apply_set (u : SetDoc) (c : MRContent) : MRContent :=
  mkMRContent (ID c) (OrganizationID c) (UserID c) (Name c) (RefID c) (RenderType c)
    (or_keep (set_images u) (Images c))
    (or_keep (set_videos u) (Videos c))
    (or_keep (set_objects_3d u) (Objects_3D c))
    (or_keep (set_has_alpha u) (HasAlpha c))
    (or_keep (set_orientation u) (Orientation c))
    (or_keep (set_status u) (Status c))
    (IsActive c) (CreatedAt c)
    (or_keep (set_updated_at u) (UpdatedAt c)).

Definition matches (f : Filter) (c : MRContent) : bool :=
  match flt_status f with
  | Some s => String.eqb (Status c) s
  | None => true
  end.

Record UpdateResult : Type := mkUpdateResult {
  MatchedCount : Z;
  ModifiedCount : Z
}.

(** One round trip to the database: the next entry of [db_faults]
    decides whether it is answered. A call that fails changes no
    document. *)
Definition db_call {A} (op : Go A) : Go A :=
  fun w =>
    match db_faults w with
    | true :: fs => (Err ErrDatabase, set_db_faults fs w)
    | false :: fs => op (set_db_faults fs w)
    | [] => op w
    end.

(** [collection.FindOne(ctx, bson.M{"_id": id}).Decode(&content)] *)
Definition FindOne (id : ObjectID) : Go MRContent :=
  db_call (fun w =>
    match documents w !! id with
    | Some c => (Ok c, w)
    | None => (Err ErrNoDocuments, w)
    end).

(** [collection.UpdateOne(ctx, filter, bson.M{"$set": u})] *)
Definition UpdateOne (f : Filter) (u : SetDoc) : Go UpdateResult :=
  db_call (fun w =>
    match documents w !! flt_id f with
    | Some c =>
        if matches f c then
          let c' := apply_set u c in
          (Ok (mkUpdateResult 1 (if decide (c' = c) then 0 else 1)),
           set_documents (insert (flt_id f) c') w)
        else (Ok (mkUpdateResult 0 0), w)
    | None => (Ok (mkUpdateResult 0 0), w)
    end).

(** [time.Now()] *)
Definition time_Now : Go Time := gets clock.

End Mongo.
Export Mongo.

(* ===================================================================== *)
(** * controllers/callback_handler.go: the task tracker *)
(* ===================================================================== *)

Module Tracker.

(** Reading [m[k]] from a [map[string]int]: the zero value when absent. *)
Definition map_get (m : gmap string Z) (k : string) : Z :=
  match m !! k with Some n => n | None => 0 end.

Definition status_filter (id : ObjectID) (s : string) : Filter :=
  mkFilter id (Some s).

(** [bson.M{"status": s, "updated_at": now}] *)
Definition status_update (s : string) (now : Time) : SetDoc :=
  with_updated_at now (with_status s empty_set).

Definition TrackProcessingStart (contentID : string) (taskCount : Z) : Go unit :=
  if taskCount <=? 0 then ret tt
  else
    modify (set_processingTasks (insert contentID taskCount)) ;;;
    objContentID <~ lift (ObjectIDFromHex contentID) ;;
    content <~ FindOne objContentID ;;
    if String.eqb (Status content) "draft" then
      now <~ time_Now ;;
      _result <~ UpdateOne (status_filter objContentID "draft")
                           (status_update "processing" now) ;;
      ret tt
    else ret tt.

Definition TrackProcessingComplete (contentID : string) : Go unit :=
  tasks <~ gets processingTasks ;;
  match tasks !! contentID with
  | None => ret tt
  | Some _ =>
      modify (set_processingTasks
                (fun m => <[contentID := int_decr (map_get m contentID)]> m)) ;;;
      remainingTasks <~ gets (fun w => map_get (processingTasks w) contentID) ;;
      if remainingTasks <=? 0 then
        modify (set_processingTasks (delete contentID)) ;;;
        objContentID <~ lift (ObjectIDFromHex contentID) ;;
        content <~ FindOne objContentID ;;
        if String.eqb (Status content) "processing" then
          now <~ time_Now ;;
          _result <~ UpdateOne (status_filter objContentID "processing")
                               (status_update "processed" now) ;;
          ret tt
        else ret tt
      else ret tt
  end.

Definition GetProcessingStatus (contentID : string) : Go (string * Z) :=
  tasks <~ gets processingTasks ;;
  match tasks !! contentID with
  | Some remainingTasks => ret ("processing", remainingTasks)
  | None =>
      objContentID <~ lift (ObjectIDFromHex contentID) ;;
      content <~ FindOne objContentID ;;
      ret (Status content, 0)
  end.

(** The test both loops of [CountMediaTasks] (and the dispatcher) apply
    to an entry: [strings.HasPrefix(m.Key, "original") && m.Value != ""]. *)
Definition is_original (m : Media) : bool :=
  HasPrefix (Key m) "original" && non_empty (Value m).

(** [video.Key == "mask" || video.Key == "original_alpha"] *)
Definition is_alpha_key (m : Media) : bool :=
  String.eqb (Key m) "mask" || String.eqb (Key m) "original_alpha".

Definition count_if (p : Media -> bool) (n : Z) (m : Media) : Z :=
  if p m then int_incr n else n.

(** How many entries of a list pass a test. *)
Definition matching (p : Media -> bool) (l : list Media) : Z :=
  Z.of_nat (length (List.filter p l)).

Definition CountMediaTasks (content : MRContent) : Z :=
  let taskCount := 0 in
  let imgCount := fold_left (count_if is_original) (elems (Images content)) 0 in
  let taskCount := if 0 <? imgCount then int_add taskCount imgCount else taskCount in
  let '(videoCount, alphaVideoCount) :=
    fold_left (fun '(v, a) video => (count_if is_original v video,
                                     count_if is_alpha_key a video))
              (elems (Videos content)) (0, 0) in
  let taskCount :=
    if 0 <? videoCount then
      let taskCount :=
        if 0 <? alphaVideoCount then int_add taskCount 1 else taskCount in
      int_add taskCount (int_mul videoCount 2)
    else taskCount in
  taskCount.

(** The task count in words: one task per original image; for the
    original videos, when there is at least one, two tasks each and one
    more when a video keyed [mask] or [original_alpha] exists. *)
Definition task_count_spec (content : MRContent) : Z :=
  let images := elems (Images content) in
  let videos := elems (Videos content) in
  matching is_original images
  + (if existsb is_original videos then
       2 * matching is_original videos
       + (if existsb is_alpha_key videos then 1 else 0)
     else 0).

End Tracker.
Export Tracker.

(* ===================================================================== *)
(** * controllers/callback_handler.go: ingesting results *)
(* ===================================================================== *)

Module Callback.

(** The loop finds the first index whose key is [key] and overwrites the
    value there; without such an index the pair is appended. *)
Definition updateMediaField (existingMedia : slice Media) (key value : string)
    : slice Media :=
  match list_find (fun media => Key media = key) (elems existingMedia) with
  | Some (i, media) =>
      Some (<[i := mkMedia (Key media) value]> (elems existingMedia))
  | None => append existingMedia (mkMedia key value)
  end.

(** The [switch result.MediaType] of [processMediaResult], acting on the
    update set. *)
Definition media_updates (result : MediaProcessResult) (content : MRContent)
    (updateOps : SetDoc) : SetDoc :=
  if String.eqb (MediaType result) "image" then
    if non_empty (ProcessedURL result) then
      with_images (updateMediaField (Images content) "compressed" (ProcessedURL result))
                  updateOps
    else updateOps
  else if String.eqb (MediaType result) "video" then
    let existingVideos := Videos content in
    if String.eqb (ProcessingType result) "compressed" then
      if non_empty (ProcessedURL result) then
        with_videos (updateMediaField existingVideos "compressed" (ProcessedURL result))
                    updateOps
      else updateOps
    else if String.eqb (ProcessingType result) "hls" then
      let updatedVideos := existingVideos in
      let updatedVideos :=
        if non_empty (HlsURL result)
        then updateMediaField updatedVideos "hls" (HlsURL result)
        else updatedVideos in
      let updatedVideos :=
        if non_empty (DashURL result)
        then updateMediaField updatedVideos "dash" (DashURL result)
        else updatedVideos in
      with_videos updatedVideos updateOps
    else if String.eqb (ProcessingType result) "alpha" then
      if non_empty (ProcessedURL result) then
        with_videos (updateMediaField existingVideos "alpha" (ProcessedURL result))
                    updateOps
      else updateOps
    else if String.eqb (ProcessingType result) "stitched" then
      if non_empty (ProcessedURL result) then
        with_videos (updateMediaField existingVideos "stitched" (ProcessedURL result))
                    updateOps
      else updateOps
    else updateOps
  else if String.eqb (MediaType result) "object_3d" then
    if non_empty (ProcessedURL result) then
      with_objects_3d
        (updateMediaField (Objects_3D content) "processed" (ProcessedURL result))
        updateOps
    else updateOps
  else updateOps.

(** The whole [updateOps] map handed to [$set]. *)
Definition build_updateOps (result : MediaProcessResult) (content : MRContent)
    (now : Time) : SetDoc :=
  let updateOps := with_updated_at now empty_set in
  let updateOps :=
    if non_empty (res_Orientation result)
    then with_orientation (res_Orientation result) updateOps
    else updateOps in
  let updateOps :=
    if res_HasAlpha result then with_has_alpha true updateOps else updateOps in
  media_updates result content updateOps.

Definition processMediaResult (result : MediaProcessResult) : Go unit :=
  if is_empty (ContentID result)
     || (is_empty (ProcessedURL result) && is_empty (HlsURL result)
         && is_empty (DashURL result))
  then fail ErrMissingRequiredFields
  else if negb (Success result) then
    logged (TrackProcessingComplete (ContentID result)) ;;;
    ret tt
  else
    contentID <~ wrapped ErrInvalidContentID (lift (ObjectIDFromHex (ContentID result))) ;;
    content <~ wrapped ErrFindingContent (FindOne contentID) ;;
    now <~ time_Now ;;
    let updateOps := build_updateOps result content now in
    _r <~ wrapped ErrUpdatingContent (UpdateOne (mkFilter contentID None) updateOps) ;;
    logged (TrackProcessingComplete (ContentID result)) ;;;
    ret tt.

(** Results ingested one after the other, whatever each call returns
    (both transports log the error and go on). *)
Definition ingest (results : list MediaProcessResult) : Go unit :=
  for_each results (fun r => logged (processMediaResult r)).

End Callback.
Export Callback.

(* ===================================================================== *)
(** * controllers/mrcontent_controller.go: merging client updates *)
(* ===================================================================== *)

Module Controller.

(** The order in which [range] walks a map is chosen by the Go runtime,
    afresh at each loop; the function takes that choice as an argument. *)
Definition IterationOrder : Type := gmap string string -> list (string * string).

(** What the language promises of the choice: every entry once. *)
Definition walks_every_entry_once (order : IterationOrder) : Prop :=
  forall m, order m ≡ₚ map_to_list m.

(** The two loops that fill [mediaMap]. *)
Definition put (m : gmap string string) (item : Media) : gmap string string :=
  <[Key item := Value item]> m.

Definition mediaMap (existingMedia newMedia : list Media) : gmap string string :=
  fold_left put newMedia (fold_left put existingMedia ∅).

Definition mergeMediaByKey (order : IterationOrder)
    (existingMedia newMedia : slice Media) : slice Media :=
  if Nat.eqb (len newMedia) 0 then existingMedia
  else if is_nil existingMedia then newMedia
  else
    let mediaMap := mediaMap (elems existingMedia) (elems newMedia) in
    Some (fold_left (fun result kv => result ++ [mkMedia kv.1 kv.2])
                    (order mediaMap) []).

(** One order that can be computed with: the map's own listing. *)
Definition listing_order : IterationOrder := map_to_list.

Definition reversed_order : IterationOrder := fun m => reverse (map_to_list m).

End Controller.
Export Controller.

(* ===================================================================== *)
(** * main.go, NATS part: dispatching the requests *)
(* ===================================================================== *)

Module Dispatcher.

(** [if err := m; err != nil { log...; return }] followed by [k]. *)
Definition or_return {A} (m : Go A) (k : A -> Go unit) : Go unit :=
  fun w =>
    match m w with
    | (Ok a, w') => k a w'
    | (Err _, w') => (Ok tt, w')
    end.

(** [if err := m; err != nil { handler } else { log... }] *)
Definition on_error {A} (m : Go A) (handler : Go unit) : Go unit :=
  fun w =>
    match m w with
    | (Ok _, w') => (Ok tt, w')
    | (Err _, w') => handler w'
    end.

Definition GetNATS : Go unit :=
  fun w => if nats_down w then (Err ErrNatsConnection, w) else (Ok tt, w).

(** [json.Marshal] of a struct of strings cannot fail; the error of
    [publishToNATS] is the one of [nc.Publish]. *)
Definition publishToNATS (data : TranscodeRequest) (subject : string) : Go unit :=
  fun w =>
    if publish_fails w subject data then (Err ErrPublish, w)
    else (Ok tt, add_published (subject, data) w).

Definition processImage (request : TranscodeRequest) : Go unit :=
  if is_empty (ImageURL request) then ret tt
  else or_return (publishToNATS request "compressimage") (fun _ => ret tt).

(** A loop that keeps the value of the first entry passing the test and
    breaks; the variable starts as the empty string. *)
Fixpoint first_value (p : Media -> bool) (l : list Media) : string :=
  match l with
  | [] => ""
  | m :: l' => if p m then Value m else first_value p l'
  end.

(** [strings.HasPrefix(video.Key, "mask") && video.Value != ""] *)
Definition is_mask (m : Media) : bool :=
  HasPrefix (Key m) "mask" && non_empty (Value m).

Definition image_request (contentIDStr orgIDStr : string) (img : Media)
    : TranscodeRequest :=
  mkTranscodeRequest "" (Value img) "" contentIDStr "" "" orgIDStr.

(** The request published to [createexperience]: the first original
    video and, when there is one, the first mask. *)
Definition video_request (content : MRContent) (contentIDStr orgIDStr : string)
    : TranscodeRequest :=
  let originalVideoURL := first_value is_original (elems (Videos content)) in
  let maskVideoURL := first_value is_mask (elems (Videos content)) in
  let baseRequest :=
    mkTranscodeRequest originalVideoURL "" "" contentIDStr "" "" orgIDStr in
  if non_empty maskVideoURL then
    mkTranscodeRequest originalVideoURL "" maskVideoURL contentIDStr "" "" orgIDStr
  else baseRequest.

Definition send_images (content : MRContent) (contentIDStr orgIDStr : string)
    : Go unit :=
  for_each (elems (Images content)) (fun img =>
    if is_original img
    then processImage (image_request contentIDStr orgIDStr img)
    else ret tt).

Definition send_video (content : MRContent) (contentIDStr orgIDStr : string)
    : Go unit :=
  let originalVideoURL := first_value is_original (elems (Videos content)) in
  if non_empty originalVideoURL then
    on_error (publishToNATS (video_request content contentIDStr orgIDStr)
                            "createexperience")
             (times 3 (logged (TrackProcessingComplete contentIDStr)))
  else ret tt.

(** The 3D objects are only logged. *)
Definition scan_objects (content : MRContent) : Go unit :=
  for_each (elems (Objects_3D content)) (fun obj => ret tt).

(** The body of the goroutine. *)
Definition queue_media (content : MRContent) (contentIDStr : string) : Go unit :=
  let orgIDStr := Hex (OrganizationID content) in
  send_images content contentIDStr orgIDStr ;;;
  send_video content contentIDStr orgIDStr ;;;
  scan_objects content.

(** The goroutine is started last and nothing follows it in the
    function; here it runs to its end right away. *)
Definition ProcessMediaForContent (content : MRContent) : Go unit :=
  or_return GetNATS (fun _ =>
    let taskCount := CountMediaTasks content in
    if taskCount <=? 0 then ret tt
    else
      let contentIDStr := Hex (ID content) in
      logged (TrackProcessingStart contentIDStr taskCount) ;;;
      queue_media content contentIDStr).

End Dispatcher.
Export Dispatcher.

(* ===================================================================== *)
(** * What the properties observe *)
(* ===================================================================== *)

Module Observations.

(** The persisted status of a record, if the record exists. *)
Definition status_of (w : World) (oid : ObjectID) : option string :=
  Status <$> documents w !! oid.

(** The three media lists of a record. *)
Definition media_of (w : World) (oid : ObjectID)
    : option (slice Media * slice Media * slice Media) :=
  (fun c => (Images c, Videos c, Objects_3D c)) <$> documents w !! oid.

(** [k] calls of [TrackProcessingComplete(id)] in a row. *)
Definition completions (k : nat) (id : string) : Go unit :=
  times k (TrackProcessingComplete id).

(** The same calls made by a caller that logs an error and goes on, as
    every caller in the service does. *)
Definition logged_completions (k : nat) (id : string) : Go unit :=
  times k (logged (TrackProcessingComplete id)).

(** What one tracker operation may do to the collection: nothing, or the
    status of the record the content id names moves from [from] to [to]
    (and the update time is stamped). *)
Definition status_step (from to : string) (id : string) (w w' : World) : Prop :=
  documents w' = documents w
  \/ exists oid c,
       ObjectIDFromHex id = Ok oid /\ documents w !! oid = Some c /\
       Status c = from /\
       documents w' = <[oid := apply_set (status_update to (clock w)) c]> (documents w).

(** The test on which [processMediaResult] rejects a result outright. *)
Definition lacks_required_fields (r : MediaProcessResult) : bool :=
  is_empty (ContentID r)
  || (is_empty (ProcessedURL r) && is_empty (HlsURL r) && is_empty (DashURL r)).

(** A computation never returns an error. *)
Definition always_ok (m : Go unit) : Prop := forall w, returned m w = Ok tt.

(** Every run of a computation relates the world before to the world
    after. *)
Definition keeps {A} (R : World -> World -> Prop) (m : Go A) : Prop :=
  forall w, R w (exec m w).

(** Only the message bus (and nothing the tracker or the store holds)
    differs. *)
Definition same_state (w w' : World) : Prop :=
  processingTasks w' = processingTasks w /\ documents w' = documents w
  /\ db_faults w' = db_faults w /\ clock w' = clock w
  /\ nats_down w' = nats_down w /\ publish_fails w' = publish_fails w.

(** Records flagged as having an alpha channel still exist and are
    still flagged. *)
Definition alpha_kept (w w' : World) : Prop :=
  forall oid c, documents w !! oid = Some c -> HasAlpha c = true ->
    exists c', documents w' !! oid = Some c' /\ HasAlpha c' = true.

(** The value of the last entry of a list under a key. *)
Fixpoint last_value (k : string) (l : list Media) : option string :=
  match l with
  | [] => None
  | m :: l' =>
      match last_value k l' with
      | Some v => Some v
      | None => if decide (Key m = k) then Some (Value m) else None
      end
  end.

(** A map entry as a list entry. *)
Definition entry (kv : string * string) : Media := mkMedia kv.1 kv.2.

(** [updateMediaField] on the elements. *)
Definition updated (l : list Media) (k v : string) : list Media :=
  match list_find (fun media => Key media = k) l with
  | Some (i, media) => <[i := mkMedia (Key media) v]> l
  | None => l ++ [mkMedia k v]
  end.

End Observations.
Export Observations.

(* ===================================================================== *)
(** * Sample records and worlds *)
(* ===================================================================== *)

Module Samples.

Definition sample_id : string := "507f1f77bcf86cd799439011".

Definition sample_oid : ObjectID :=
  Eval vm_compute in
    match ObjectIDFromHex sample_id with Ok o => o | Err _ => 0%N end.

Definition sample_org : ObjectID := 7%N.

(** A draft record with one original image, one original video and a
    mask. *)
Definition draft_record : MRContent :=
  mkMRContent sample_oid sample_org 9%N "Demo" "Ab3-_~" "video"
    (Some [mkMedia "original" "https://cdn/img.png"])
    (Some [mkMedia "original" "https://cdn/v.mp4"; mkMedia "mask" "https://cdn/m.mp4"])
    None false "" "draft" true 1000 1000.

(** Nothing tracked, the record stored, every collaborator answering. *)
Definition quiet_world : World :=
  mkWorld ∅ {[ sample_oid := draft_record ]} [] 2000 false (fun _ _ => false) [].

(** The same record once processing has started. *)
Definition processing_record : MRContent :=
  apply_set (status_update "processing" 1500) draft_record.

(** Two tasks outstanding for the sample record. *)
Definition tracking_world : World :=
  mkWorld {[ sample_id := 2 ]} {[ sample_oid := processing_record ]} [] 2000 false
          (fun _ _ => false) [].

(** One original video, without and with a mask. *)
Definition video_record : MRContent :=
  mkMRContent sample_oid sample_org 9%N "Clip" "Zx9-_~" "video"
    None (Some [mkMedia "original" "https://cdn/v.mp4"]) None
    false "" "draft" true 1000 1000.

Definition video_mask_record : MRContent :=
  mkMRContent sample_oid sample_org 9%N "Clip" "Zx9-_~" "video"
    None
    (Some [mkMedia "original" "https://cdn/v.mp4"; mkMedia "mask" "https://cdn/m.mp4"])
    None false "" "draft" true 1000 1000.

(** A failed compression that reports no URL, and one that reports the
    source URL back. *)
Definition failed_without_urls : MediaProcessResult :=
  mkMediaProcessResult sample_id "https://cdn/v.mp4" "" "" "" "video" "compressed"
    "" false false "encoder exited with status 1" 1700000000.

Definition failed_with_url : MediaProcessResult :=
  mkMediaProcessResult sample_id "https://cdn/v.mp4" "https://cdn/v.mp4" "" "" "video"
    "compressed" "" false false "encoder exited with status 1" 1700000000.

(** An update that names one key twice. *)
Definition twice_keyed : slice Media :=
  Some [mkMedia "compressed" "https://cdn/one.mp4";
        mkMedia "compressed" "https://cdn/two.mp4"].

(** A bus that refuses the combined video request and nothing else. *)
Definition refuses_video (subject : string) (_ : TranscodeRequest) : bool :=
  String.eqb subject "createexperience".

Definition refusing_world (c : MRContent) : World :=
  mkWorld ∅ {[ sample_oid := c ]} [] 2000 false refuses_video [].

(** A record in [processing] already flagged as having an alpha
    channel, and a stitching result that does not carry the flag. *)
Definition alpha_record : MRContent :=
  mkMRContent sample_oid sample_org 9%N "Clip" "Zx9-_~" "video"
    None
    (Some [mkMedia "original" "https://cdn/v.mp4"; mkMedia "mask" "https://cdn/m.mp4"])
    None true "landscape" "processing" true 1000 1500.

Definition alpha_world : World :=
  mkWorld {[ sample_id := 3 ]} {[ sample_oid := alpha_record ]} [] 2000 false
          (fun _ _ => false) [].

Definition stitched_result : MediaProcessResult :=
  mkMediaProcessResult sample_id "https://cdn/v.mp4" "https://cdn/v-stitched.mp4" "" ""
    "video" "stitched" "" false true "" 1700000100.

End Samples.
Export Samples.

(* ===================================================================== *)
(** * Further code of the service, and what further properties observe *)
(* ===================================================================== *)

Module Ingestion.

(** What the [$set] of [processMediaResult] may have done before the
    completion is counted: nothing, or the update set built from the
    record as read was applied to that record. *)
Definition update_step (r : MediaProcessResult) (w wmid : World) : Prop :=
  processingTasks wmid = processingTasks w /\ clock wmid = clock w
  /\ (documents wmid = documents w
      \/ exists oid c,
           ObjectIDFromHex (ContentID r) = Ok oid /\ documents w !! oid = Some c
           /\ documents wmid
              = <[oid := apply_set (build_updateOps r c (clock w)) c]> (documents w)).

(** The keys [processMediaResult] writes under. *)
Definition produced_keys : list string :=
  ["compressed"; "hls"; "dash"; "alpha"; "stitched"; "processed"].

(** Every key is still there, and every entry under a key that is not a
    produced one is still there as it was. *)
Definition entries_kept (s s' : slice Media) : Prop :=
  (forall k, k ∈ keys (elems s) -> k ∈ keys (elems s'))
  /\ (forall m, m ∈ elems s -> Key m ∉ produced_keys -> m ∈ elems s').

Definition record_kept (c c' : MRContent) : Prop :=
  ID c' = ID c /\ OrganizationID c' = OrganizationID c /\ UserID c' = UserID c
  /\ Name c' = Name c /\ RefID c' = RefID c /\ RenderType c' = RenderType c
  /\ IsActive c' = IsActive c /\ CreatedAt c' = CreatedAt c
  /\ entries_kept (Images c) (Images c')
  /\ entries_kept (Videos c) (Videos c')
  /\ entries_kept (Objects_3D c) (Objects_3D c').

Definition records_kept (w w' : World) : Prop :=
  forall oid,
    match documents w !! oid with
    | Some c => exists c', documents w' !! oid = Some c' /\ record_kept c c'
    | None => documents w' !! oid = None
    end.

End Ingestion.
Export Ingestion.

Module TrackerFacts.

(** The table holds only counts a Go [int] can hold and that are still
    to be counted down. *)
Definition counts_outstanding (w : World) : Prop :=
  forall id n, processingTasks w !! id = Some n -> 0 < n <= max_int.

(** An operation leaves a table of outstanding counts such a table. *)
Definition stays_outstanding (w w' : World) : Prop :=
  counts_outstanding w -> counts_outstanding w'.

(** The bus refuses nothing. *)
Definition bus_accepts_all (w : World) : Prop :=
  forall subject req, publish_fails w subject req = false.

(** The messages [ProcessMediaForContent] hands to a bus that accepts
    them: one per original image, in list order, then one for the first
    original video. *)
Definition expected_messages (content : MRContent) : list (string * TranscodeRequest) :=
  let id := Hex (ID content) in
  let org := Hex (OrganizationID content) in
  ((fun img => ("compressimage", image_request id org img))
     <$> List.filter is_original (elems (Images content)))
  ++ (if existsb is_original (elems (Videos content))
      then [("createexperience", video_request content id org)]
      else []).

End TrackerFacts.
Export TrackerFacts.

Module MoreSamples.

(** A record whose only media are outputs and a 3D original. *)
Definition outputs_only_record : MRContent :=
  mkMRContent sample_oid sample_org 9%N "Done" "Qr5-_~" "video"
    (Some [mkMedia "compressed" "https://cdn/img-c.png"])
    (Some [mkMedia "hls" "https://cdn/v.m3u8"; mkMedia "original" ""])
    (Some [mkMedia "original" "https://cdn/o.glb"])
    false "" "draft" true 1000 1000.

End MoreSamples.
Export MoreSamples.

(* --------------------------------------------------------------------- *)
(** ** controllers/callback_handler.go: the two transports *)
(* --------------------------------------------------------------------- *)

Module Transport.





(** The topics both subscribe to, in order. *)
Definition topicPatterns : list string :=
  ["result.compressimage"; "result.compressvideo"; "result.transcodehlsdash";
   "result.generatealpha"; "result.stitchvideos"; "result.default"].

End Transport.
Export Transport.

(* --------------------------------------------------------------------- *)
(** ** controllers/mrcontent_controller.go: responses and paging *)
(* --------------------------------------------------------------------- *)

Module Responses.

(** The values [transformMRContentResponse] puts in its
    [map[string]interface{}]. *)
Inductive JSONValue : Type :=
| JObjectID (o : ObjectID)
| JString (s : string)
| JBool (b : bool)
| JTime (t : Time).

(** [response[prefix + m.Key] = m.Value] *)
Definition flatten (prefix : string) (response : gmap string JSONValue) (m : Media)
    : gmap string JSONValue :=
  <[String.append prefix (Key m) := JString (Value m)]> response.

(** The map literal the function starts from. *)
Definition base_response (content : MRContent) : gmap string JSONValue :=
  list_to_map
    [("id", JObjectID (ID content));
     ("organization_id", JObjectID (OrganizationID content));
     ("user_id", JObjectID (UserID content));
     ("name", JString (Name content));
     ("ref_id", JString (RefID content));
     ("render_type", JString (RenderType content));
     ("has_alpha", JBool (HasAlpha content));
     ("orientation", JString (Orientation content));
     ("status", JString (Status content));
     ("is_active", JBool (IsActive content));
     ("created_at", JTime (CreatedAt content));
     ("updated_at", JTime (UpdatedAt content))].

Definition transformMRContentResponse (content : MRContent) : gmap string JSONValue :=
  let response := base_response content in
  let response := fold_left (flatten "images_") (elems (Images content)) response in
  let response := fold_left (flatten "videos_") (elems (Videos content)) response in
  let response := fold_left (flatten "objects_3d_") (elems (Objects_3D content)) response in
  response.

(** A query parameter read with [c.Query] and [fmt.Sscanf(q, "%d", &x)]:
    not given (the empty string), given but not scanned (an error, the
    variable left as it was), or scanned into an [int]. *)
Inductive QueryInt : Type :=
| NotGiven
| NotScanned
| Scanned (z : Z).

(** [limit] as [ListMRContents] computes it. *)
Definition list_limit (limitQuery : QueryInt) : Z :=
  let limit := 10 in
  match limitQuery with
  | NotGiven => limit
  | NotScanned => 10
  | Scanned z => if z <? 1 then 10 else z
  end.

(** [skip] as [ListMRContents] computes it. *)
Definition list_skip (limit : Z) (pageQuery : QueryInt) : Z :=
  let skip := 0 in
  match pageQuery with
  | NotGiven => skip
  | NotScanned => skip
  | Scanned page => if 0 <? page then int_mul (int_wrap (page - 1)) limit else skip
  end.

(** ["page": skip/limit + 1]; Go's [/] truncates. *)
Definition list_page (skip limit : Z) : Z := int_add (Z.quot skip limit) 1.

(** ["total_pages": (total + int64(limit) - 1) / int64(limit)] *)
Definition list_total_pages (total limit : Z) : Z :=
  Z.quot (int_wrap (int_add total limit - 1)) limit.

End Responses.
Export Responses.

(* --------------------------------------------------------------------- *)
(** ** controllers/mrcontent_controller.go: the store as the handlers use it *)
(* --------------------------------------------------------------------- *)

Module ControllerStore.

(** The filters of the handlers: [bson.M{"_id": id}] with an optional
    ["organization_id"] and an optional ["is_active"]. *)
Record Criteria : Type := mkCriteria {
  by_id : ObjectID;
  by_org : option ObjectID;
  by_active : option bool
}.

Definition meets (q : Criteria) (c : MRContent) : bool :=
  match by_org q with
  | Some org => N.eqb (OrganizationID c) org
  | None => true
  end
  && match by_active q with
     | Some b => Bool.eqb (IsActive c) b
     | None => true
     end.

(** [collection.FindOne(ctx, filter).Decode(&content)] *)
Definition FindOneWhere (q : Criteria) : Go MRContent :=
  db_call (fun w =>
    match documents w !! by_id q with
    | Some c => if meets q c then (Ok c, w) else (Err ErrNoDocuments, w)
    | None => (Err ErrNoDocuments, w)
    end).

(** The [$set] documents of the handlers: the fields [SetDoc] has, and
    [name], [render_type] and [is_active]. *)
Record ControllerSet : Type := mkControllerSet {
  cs_fields : SetDoc;
  cs_name : option string;
  cs_render_type : option string;
  cs_is_active : option bool
}.

Definition apply_controller_set (u : ControllerSet) (c : MRContent) : MRContent :=
  let c1 := apply_set (cs_fields u) c in
  mkMRContent (ID c1) (OrganizationID c1) (UserID c1)
    (or_keep (cs_name u) (Name c1)) (RefID c1)
    (or_keep (cs_render_type u) (RenderType c1))
    (Images c1) (Videos c1) (Objects_3D c1) (HasAlpha c1) (Orientation c1) (Status c1)
    (or_keep (cs_is_active u) (IsActive c1)) (CreatedAt c1) (UpdatedAt c1).

(** [collection.UpdateOne(ctx, filter, bson.M{"$set": u})] *)
Definition UpdateOneWhere (q : Criteria) (u : ControllerSet) : Go UpdateResult :=
  db_call (fun w =>
    match documents w !! by_id q with
    | Some c =>
        if meets q c then
          let c' := apply_controller_set u c in
          (Ok (mkUpdateResult 1 (if decide (c' = c) then 0 else 1)),
           set_documents (insert (by_id q) c') w)
        else (Ok (mkUpdateResult 0 0), w)
    | None => (Ok (mkUpdateResult 0 0), w)
    end).

(** [collection.CountDocuments(ctx, bson.M{"ref_id": refID})] *)
Definition CountDocuments_ref_id (refID : string) : Go Z :=
  db_call (fun w =>
    (Ok (Z.of_nat (size (filter (fun kc => RefID kc.2 = refID) (documents w)))), w)).

(** What the struct tags make of a record on its way into the store and
    back: an empty list is left out ([omitempty]) and read back as nil;
    every other field comes back as it went. *)
Definition omit_empty (s : slice Media) : slice Media :=
  match s with
  | Some [] => None
  | _ => s
  end.

Definition stored_form (c : MRContent) : MRContent :=
  mkMRContent (ID c) (OrganizationID c) (UserID c) (Name c) (RefID c) (RenderType c)
    (omit_empty (Images c)) (omit_empty (Videos c)) (omit_empty (Objects_3D c))
    (HasAlpha c) (Orientation c) (Status c) (IsActive c) (CreatedAt c) (UpdatedAt c).

(** [collection.InsertOne(ctx, content)]: refused when the [_id] is
    taken. *)
Definition InsertOne (c : MRContent) : Go unit :=
  db_call (fun w =>
    match documents w !! ID c with
    | Some _ => (Err ErrDatabase, w)
    | None => (Ok tt, set_documents (insert (ID c) (stored_form c)) w)
    end).

End ControllerStore.
Export ControllerStore.

(* --------------------------------------------------------------------- *)
(** ** controllers/mrcontent_controller.go: the handlers *)
(* --------------------------------------------------------------------- *)

Module Handlers.

(** The JSON bodies of the handlers. *)
Inductive Body : Type :=
| ErrorBody (msg : string)     (* fiber.Map{"error": msg} *)
| ParserErrorBody              (* fiber.Map{"error": err.Error()}, from BodyParser *)
| DriverErrorBody (e : error)  (* fiber.Map{"error": err.Error()}, from the driver *)
| MessageBody (msg : string)   (* fiber.Map{"message": msg} *)
| ContentBody (fields : gmap string JSONValue).

Record HTTPResponse : Type := mkHTTPResponse {
  http_status : Z;
  http_body : Body
}.

Definition respond (status : Z) (body : Body) : World -> HTTPResponse * World :=
  fun w => (mkHTTPResponse status body, w).

(** [const charset] of [generateUniqueRefID]. *)
Definition charset : string :=
  "ABCDEFGHIJKLMNOPQRSTUVWXYZabcdefghijklmnopqrstuvwxyz0123456789-_~.@#$%^&*()+=!".

(** [charset[r.Intn(len(charset))]], for the number the source of
    randomness yields at this call: [Intn(n)] lies in [[0, n)]. *)
Definition pick_char (raw : nat) : ascii :=
  match String.get (raw mod String.length charset) charset with
  | Some c => c
  | None => "000"%char
  end.

(** The loop [for i := 0; i < length; i++] of [generateUniqueRefID],
    writing one byte per round. *)
Fixpoint write_chars (n i : nat) (source : nat -> nat) (written : string) : string :=
  match n with
  | O => written
  | S n' => write_chars n' (S i) source
              (String.append written (String (pick_char (source i)) EmptyString))
  end.

(** [generateUniqueRefID], for one source of randomness. *)
Definition generateUniqueRefID (source : nat -> nat) : string :=
  write_chars 6 0 source "".

(** The loop of [CreateMRContent] that looks for a free [ref_id]:
    [attempts] rounds are left, [attempt] is the number of the round,
    each round seeds a source of its own. The result is the id found, or
    nothing when the rounds are used up. *)
Fixpoint pick_ref_id (attempts attempt : nat) (sources : nat -> nat -> nat)
    : Go (option string) :=
  match attempts with
  | O => ret None
  | S n =>
      let refID := generateUniqueRefID (sources attempt) in
      count <~ CountDocuments_ref_id refID ;;
      if count =? 0 then ret (Some refID)
      else pick_ref_id n (S attempt) sources
  end.

Definition maxAttempts : nat := 10.

(** [len(l) > 0] *)
Definition has_entries (l : slice Media) : bool := negb (Nat.eqb (len l) 0).

(** [CreateMRContent]. [userID] and [orgID] are the token's
    [c.Locals]; [parsed] is what [c.BodyParser] made of the body;
    [sources] and [newID] are what the random sources and
    [primitive.NewObjectID] yield. *)
Definition CreateMRContent (userID orgID : string) (parsed : option MRContent)
    (sources : nat -> nat -> nat) (newID : ObjectID)
    : World -> HTTPResponse * World :=
  match parsed with
  | None => respond 400 ParserErrorBody
  | Some content =>
      match ObjectIDFromHex userID with
      | Err _ => respond 400 (ErrorBody "Invalid user ID")
      | Ok objUserID =>
          match ObjectIDFromHex orgID with
          | Err _ => respond 400 (ErrorBody "Invalid organization ID")
          | Ok objOrgID =>
              fun w =>
                match pick_ref_id maxAttempts 0 sources w with
                | (Err _, w1) =>
                    respond 500 (ErrorBody "Error checking ref_id uniqueness") w1
                | (Ok None, w1) =>
                    respond 500
                      (ErrorBody "Failed to generate unique ref_id after multiple attempts")
                      w1
                | (Ok (Some refID), w1) =>
                    let currentTime := clock w1 in
                    let status :=
                      if is_empty (Status content) then "draft" else Status content in
                    let content :=
                      mkMRContent newID objOrgID objUserID (Name content) refID
                        (RenderType content) (Images content) (Videos content)
                        (Objects_3D content) (HasAlpha content) (Orientation content)
                        status true currentTime currentTime in
                    match InsertOne content w1 with
                    | (Err e, w2) => respond 500 (DriverErrorBody e) w2
                    | (Ok _, w2) =>
                        let hasMedia :=
                          has_entries (Images content) || has_entries (Videos content)
                          || has_entries (Objects_3D content) in
                        let w3 :=
                          if hasMedia then exec (ProcessMediaForContent content) w2
                          else w2 in
                        respond 201 (ContentBody (transformMRContentResponse content)) w3
                    end
                end
          end
      end
  end.

(** [GetMRContent] *)
Definition GetMRContent (contentID orgID : string) : World -> HTTPResponse * World :=
  if is_empty contentID then respond 400 (ErrorBody "Content ID is required")
  else
    match ObjectIDFromHex orgID with
    | Err _ => respond 400 (ErrorBody "Invalid organization ID")
    | Ok objOrgID =>
        match ObjectIDFromHex contentID with
        | Err _ => respond 400 (ErrorBody "Invalid content ID format")
        | Ok objContentID =>
            fun w =>
              match FindOneWhere (mkCriteria objContentID (Some objOrgID) (Some true)) w with
              | (Err _, w1) => respond 404 (ErrorBody "MR content not found") w1
              | (Ok content, w1) =>
                  respond 200 (ContentBody (transformMRContentResponse content)) w1
              end
        end
    end.

(** [DeleteMRContent] *)
Definition DeleteMRContent (contentID userID orgID : string)
    : World -> HTTPResponse * World :=
  if is_empty contentID then respond 400 (ErrorBody "Content ID is required")
  else
    match ObjectIDFromHex contentID with
    | Err _ => respond 400 (ErrorBody "Invalid content ID format")
    | Ok objContentID =>
        match ObjectIDFromHex orgID with
        | Err _ => respond 400 (ErrorBody "Invalid organization ID")
        | Ok objOrgID =>
            fun w =>
              let updateData :=
                mkControllerSet (with_updated_at (clock w) empty_set) None None
                                (Some false) in
              match UpdateOneWhere (mkCriteria objContentID (Some objOrgID) (Some true))
                                   updateData w with
              | (Err _, w1) => respond 500 (ErrorBody "Failed to delete MR content") w1
              | (Ok result, w1) =>
                  if ModifiedCount result =? 0
                  then respond 404 (ErrorBody "MR content not found") w1
                  else respond 200 (MessageBody "MR content deleted successfully") w1
              end
        end
    end.

End Handlers.
Export Handlers.

(* ===================================================================== *)
(** * Integers in range do not wrap *)
(* ===================================================================== *)

Lemma int_wrap_id (z : Z) : is_int z -> int_wrap z = z.
Proof.
  unfold is_int, min_int, max_int, int_wrap. intros Hz.
  rewrite Z.mod_small by lia. lia.
Qed.

Lemma int_wrap_is_int (z : Z) : is_int (int_wrap z).
Proof.
  unfold is_int, min_int, max_int, int_wrap.
  pose proof (Z.mod_pos_bound (z + 2 ^ 63) (2 ^ 64) ltac:(lia)). lia.
Qed.

Lemma int_decr_pos (n : Z) : 0 < n <= max_int -> int_decr n = n - 1.
Proof.
  intros Hn. unfold int_decr. apply int_wrap_id.
  unfold is_int, min_int, max_int in *. lia.
Qed.

(* ===================================================================== *)
(** * Counting tasks *)
(* ===================================================================== *)

Section Counting.

Variable p : Media -> bool.

Lemma matching_bounds (l : list Media) :
  0 <= matching p l <= Z.of_nat (length l).
Proof.
  unfold matching. induction l as [|m l IH]; simpl; [lia|].
  destruct (p m); simpl; lia.
Qed.

Lemma matching_cons (m : Media) (l : list Media) :
  matching p (m :: l) = (if p m then 1 else 0) + matching p l.
Proof. unfold matching. simpl. destruct (p m); simpl; lia. Qed.

(** A counting loop computes [matching] as long as the counter fits. *)
Lemma count_loop (l : list Media) (n : Z) :
  0 <= n -> n + Z.of_nat (length l) <= max_int ->
  fold_left (count_if p) l n = n + matching p l.
Proof.
  revert n. induction l as [|m l IH]; intros n Hn Hmax.
  - unfold matching. simpl. lia.
  - cbn [fold_left]. rewrite matching_cons. cbn [length] in Hmax.
    pose proof (matching_bounds l) as Hb.
    unfold count_if at 2. destruct (p m).
    + unfold int_incr, int_add.
      rewrite int_wrap_id by (unfold is_int, min_int, max_int in *; lia).
      rewrite IH by lia. lia.
    + rewrite IH by lia. lia.
Qed.

Lemma matching_existsb (l : list Media) :
  existsb p l = (0 <? matching p l).
Proof.
  induction l as [|m l IH]; [reflexivity|].
  rewrite matching_cons. pose proof (matching_bounds l). simpl.
  destruct (p m); simpl.
  - symmetry. apply Z.ltb_lt. lia.
  - rewrite IH. reflexivity.
Qed.

End Counting.

(** The video loop keeps two independent counters. *)
Lemma video_loop (l : list Media) (v a : Z) :
  fold_left (fun '(v, a) video =>
               (count_if is_original v video, count_if is_alpha_key a video))
            l (v, a)
  = (fold_left (count_if is_original) l v, fold_left (count_if is_alpha_key) l a).
Proof.
  revert v a. induction l as [|m l IH]; intros v a; [reflexivity|].
  cbn [fold_left]. apply IH.
Qed.

Lemma CountMediaTasks_eq (c : MRContent) :
  Z.of_nat (len (Images c)) + 2 * Z.of_nat (len (Videos c)) + 1 <= max_int ->
  CountMediaTasks c = task_count_spec c.
Proof.
  unfold len. intros Hfit.
  unfold CountMediaTasks, task_count_spec.
  rewrite video_loop.
  pose proof (matching_bounds is_original (elems (Images c))) as Hi.
  pose proof (matching_bounds is_original (elems (Videos c))) as Hv.
  pose proof (matching_bounds is_alpha_key (elems (Videos c))) as Ha.
  rewrite !count_loop by (unfold max_int in *; lia).
  rewrite !matching_existsb.
  rewrite !Z.add_0_l.
  unfold int_add, int_mul.
  assert (Hw : forall z,
             0 <= z <= Z.of_nat (length (elems (Images c)))
                       + 2 * Z.of_nat (length (elems (Videos c))) + 1 ->
             int_wrap z = z).
  { intros z Hz. apply int_wrap_id. unfold is_int, min_int, max_int in *. lia. }
  repeat case_match; rewrite ?Z.ltb_lt, ?Z.ltb_ge in *;
    repeat match goal with
           | |- context [int_wrap ?z] => rewrite (Hw z) by lia
           end; lia.
Qed.

Lemma CountMediaTasks_is_int (c : MRContent) : is_int (CountMediaTasks c).
Proof.
  unfold CountMediaTasks. rewrite video_loop.
  unfold int_add, int_mul.
  repeat case_match; try apply int_wrap_is_int;
    unfold is_int, min_int, max_int; lia.
Qed.

(** C2. As long as the counters fit an [int], [CountMediaTasks] is the
    number of original images plus, when there is an original video, twice
    the number of original videos and one more when a video keyed [mask]
    or [original_alpha] exists; the 3D objects play no part; without
    original media the count is 0; one original video alone counts 2, and
    3 next to a mask. *)
Theorem CountMediaTasks_counts (c : MRContent) :
  Z.of_nat (len (Images c)) + 2 * Z.of_nat (len (Videos c)) + 1 <= max_int ->
  CountMediaTasks c = task_count_spec c
  /\ (forall c' : MRContent,
        Images c' = Images c -> Videos c' = Videos c ->
        CountMediaTasks c' = CountMediaTasks c)
  /\ (existsb is_original (elems (Images c)) = false ->
      existsb is_original (elems (Videos c)) = false ->
      CountMediaTasks c = 0)
  /\ (matching is_original (elems (Images c)) = 0 ->
      matching is_original (elems (Videos c)) = 1 ->
      CountMediaTasks c = if existsb is_alpha_key (elems (Videos c)) then 3 else 2).
Proof.
  intros Hfit. pose proof (CountMediaTasks_eq c Hfit) as Heq.
  split; [exact Heq|]. split; [|split].
  - intros c' Hi Hv. unfold CountMediaTasks. rewrite Hi, Hv. reflexivity.
  - intros Hi Hv. rewrite Heq. unfold task_count_spec. rewrite Hv.
    rewrite matching_existsb in Hi. apply Z.ltb_ge in Hi.
    pose proof (matching_bounds is_original (elems (Images c))). lia.
  - intros Hi Hv. rewrite Heq. unfold task_count_spec.
    rewrite (matching_existsb is_original (elems (Videos c))), Hi, Hv.
    simpl. destruct (existsb is_alpha_key (elems (Videos c))); reflexivity.
Qed.

(** The sample records: a video, a video with its mask, and both next
    to an image. *)
Lemma CountMediaTasks_witness :
  CountMediaTasks video_record = 2 /\ CountMediaTasks video_mask_record = 3
  /\ CountMediaTasks draft_record = 4.
Proof.
  split; [|split].
  - rewrite (proj1 (CountMediaTasks_counts video_record ltac:(vm_compute; discriminate))).
    reflexivity.
  - rewrite (proj1 (CountMediaTasks_counts video_mask_record
                      ltac:(vm_compute; discriminate))).
    reflexivity.
  - rewrite (proj1 (CountMediaTasks_counts draft_record ltac:(vm_compute; discriminate))).
    reflexivity.
Defined.

(* ===================================================================== *)
(** * Running the monad *)
(* ===================================================================== *)

(** Exposes the state passing of the tracker operations. *)
Ltac go_unfold :=
  unfold exec, returned, logged, wrapped, or_return, on_error,
    TrackProcessingStart, TrackProcessingComplete, GetProcessingStatus,
    FindOne, UpdateOne, db_call, time_Now,
    bind, gets, modify, lift, ret, fail,
    set_processingTasks, set_documents, set_db_faults, add_published, map_get in *.

Lemma times_app (a b : nat) (body : Go unit) (w : World) :
  times (a + b) body w
  = match times a body w with
    | (Ok _, w') => times b body w'
    | (Err e, w') => (Err e, w')
    end.
Proof.
  revert w. induction a as [|a IH]; intros w; [reflexivity|].
  cbn [Nat.add times]. unfold bind.
  destruct (body w) as [[[]|e] w1]; [apply IH|reflexivity].
Qed.

Lemma exec_bind_ok (m : Go unit) (k : unit -> Go unit) (w : World) :
  always_ok m -> exec (bind m k) w = exec (k tt) (exec m w).
Proof.
  intros Hm. specialize (Hm w). unfold exec, returned, bind in *.
  destruct (m w) as [[[]|e] w1]; simpl in *; [reflexivity|discriminate].
Qed.

Lemma returned_bind_ok (m : Go unit) (k : unit -> Go unit) (w : World) :
  always_ok m -> returned (bind m k) w = returned (k tt) (exec m w).
Proof.
  intros Hm. specialize (Hm w). unfold exec, returned, bind in *.
  destruct (m w) as [[[]|e] w1]; simpl in *; [reflexivity|discriminate].
Qed.

Lemma logged_ok {A} (m : Go A) : always_ok (logged m).
Proof. intros w. reflexivity. Qed.

Lemma exec_logged {A} (m : Go A) (w : World) : exec (logged m) w = exec m w.
Proof. reflexivity. Qed.

Lemma times_ok (k : nat) (body : Go unit) : always_ok body -> always_ok (times k body).
Proof.
  intros Hb. induction k as [|k IH]; intros w; [reflexivity|].
  cbn [times]. rewrite returned_bind_ok by exact Hb. apply IH.
Qed.

Lemma for_each_ok {A} (l : list A) (body : A -> Go unit) :
  (forall x, always_ok (body x)) -> always_ok (for_each l body).
Proof.
  intros Hb. induction l as [|x l IH]; intros w; [reflexivity|].
  cbn [for_each]. rewrite returned_bind_ok by apply Hb. apply IH.
Qed.

Lemma exec_times_S (k : nat) (body : Go unit) (w : World) :
  always_ok body -> exec (times (S k) body) w = exec (times k body) (exec body w).
Proof. intros Hb. cbn [times]. apply exec_bind_ok. exact Hb. Qed.

(** Rules for showing that a computation keeps a relation that is
    reflexive and transitive. *)
Section Keeps.

Variable R : World -> World -> Prop.
Hypothesis R_refl : forall w, R w w.
Hypothesis R_trans : forall w1 w2 w3, R w1 w2 -> R w2 w3 -> R w1 w3.

Lemma keeps_ret {A} (a : A) : keeps R (ret a).
Proof. intros w. apply R_refl. Qed.

Lemma keeps_fail {A} (e : error) : keeps R (@fail A e).
Proof. intros w. apply R_refl. Qed.

Lemma keeps_lift {A} (r : result A) : keeps R (lift r).
Proof. intros w. apply R_refl. Qed.

Lemma keeps_gets {A} (f : World -> A) : keeps R (gets f).
Proof. intros w. apply R_refl. Qed.

Lemma keeps_bind {A B} (m : Go A) (k : A -> Go B) :
  keeps R m -> (forall a, keeps R (k a)) -> keeps R (bind m k).
Proof.
  intros Hm Hk w. specialize (Hm w). unfold exec, bind in *.
  destruct (m w) as [[a|e] w1]; simpl in *; [|exact Hm].
  eapply R_trans; [exact Hm|]. apply (Hk a w1).
Qed.

Lemma keeps_logged {A} (m : Go A) : keeps R m -> keeps R (logged m).
Proof. intros Hm w. apply Hm. Qed.

Lemma keeps_wrapped {A} (wrap : error -> error) (m : Go A) :
  keeps R m -> keeps R (wrapped wrap m).
Proof.
  intros Hm w. specialize (Hm w). unfold exec, wrapped in *.
  destruct (m w) as [[a|e] w1]; exact Hm.
Qed.

Lemma keeps_or_return {A} (m : Go A) (k : A -> Go unit) :
  keeps R m -> (forall a, keeps R (k a)) -> keeps R (or_return m k).
Proof.
  intros Hm Hk w. specialize (Hm w). unfold exec, or_return in *.
  destruct (m w) as [[a|e] w1]; simpl in *; [|exact Hm].
  eapply R_trans; [exact Hm|]. apply (Hk a w1).
Qed.

Lemma keeps_on_error {A} (m : Go A) (handler : Go unit) :
  keeps R m -> keeps R handler -> keeps R (on_error m handler).
Proof.
  intros Hm Hh w. specialize (Hm w). unfold exec, on_error in *.
  destruct (m w) as [[a|e] w1]; simpl in *; [exact Hm|].
  eapply R_trans; [exact Hm|]. apply (Hh w1).
Qed.

Lemma keeps_times (k : nat) (body : Go unit) : keeps R body -> keeps R (times k body).
Proof.
  intros Hb. induction k as [|k IH]; [apply keeps_ret|].
  cbn [times]. apply keeps_bind; [exact Hb|]. intros _. exact IH.
Qed.

Lemma keeps_for_each {A} (l : list A) (body : A -> Go unit) :
  (forall x, keeps R (body x)) -> keeps R (for_each l body).
Proof.
  intros Hb. induction l as [|x l IH]; [apply keeps_ret|].
  cbn [for_each]. apply keeps_bind; [apply Hb|]. intros _. exact IH.
Qed.

(** A database round trip keeps what the operation keeps, provided the
    relation does not look at the pending faults. *)
Lemma keeps_db_call {A} (op : Go A) :
  (forall fs w, R w (set_db_faults fs w)) -> keeps R op -> keeps R (db_call op).
Proof.
  intros Hfs Hop w. unfold exec, db_call.
  destruct (db_faults w) as [|[] fs]; simpl.
  - apply Hop.
  - apply Hfs.
  - eapply R_trans; [apply (Hfs fs w)|]. apply (Hop (set_db_faults fs w)).
Qed.

End Keeps.

(* ===================================================================== *)
(** * The task tracker *)
(* ===================================================================== *)

Lemma complete_absent (id : string) (w : World) :
  processingTasks w !! id = None -> TrackProcessingComplete id w = (Ok tt, w).
Proof. intros H. go_unfold. rewrite H. reflexivity. Qed.

Lemma complete_pending (id : string) (m : Z) (w : World) :
  processingTasks w !! id = Some m -> 0 < int_decr m ->
  TrackProcessingComplete id w
  = (Ok tt, set_processingTasks (insert id (int_decr m)) w).
Proof.
  intros H Hpos. destruct w as [tasks docs faults now down pf pub].
  go_unfold. simpl in *. rewrite H. simpl. rewrite H, lookup_insert_eq.
  destruct (int_decr m <=? 0) eqn:E; [apply Z.leb_le in E; lia|]. reflexivity.
Qed.

(** The table after a completion, whatever the database does. *)
Lemma complete_tasks (id : string) (w : World) :
  processingTasks (exec (TrackProcessingComplete id) w)
  = match processingTasks w !! id with
    | None => processingTasks w
    | Some m =>
        if int_decr m <=? 0 then delete id (processingTasks w)
        else <[id := int_decr m]> (processingTasks w)
    end.
Proof.
  destruct w as [tasks docs faults now down pf pub].
  go_unfold. simpl.
  destruct (tasks !! id) as [m|] eqn:H; [|reflexivity].
  simpl. rewrite H, lookup_insert_eq.
  destruct (int_decr m <=? 0) eqn:E; [|reflexivity].
  repeat case_match; simpl; simplify_eq/=; try (rewrite delete_insert_eq; reflexivity).
Qed.

Lemma start_skipped (id : string) (n : Z) (w : World) :
  n <= 0 -> TrackProcessingStart id n w = (Ok tt, w).
Proof.
  intros Hn. unfold TrackProcessingStart.
  destruct (n <=? 0) eqn:E; [reflexivity|]. apply Z.leb_gt in E. lia.
Qed.

(** The table after a start, whatever the database does. *)
Lemma start_tasks (id : string) (n : Z) (w : World) :
  0 < n ->
  processingTasks (exec (TrackProcessingStart id n) w) = <[id := n]> (processingTasks w).
Proof.
  intros Hn. destruct w as [tasks docs faults now down pf pub].
  go_unfold. destruct (n <=? 0) eqn:E; [apply Z.leb_le in E; lia|].
  simpl. repeat case_match; simpl; simplify_eq/=; reflexivity.
Qed.

Lemma start_documents (id : string) (n : Z) (w : World) :
  status_step "draft" "processing" id w (exec (TrackProcessingStart id n) w).
Proof.
  destruct w as [tasks docs faults now down pf pub].
  unfold status_step. go_unfold.
  destruct (n <=? 0); [left; reflexivity|]. simpl.
  destruct (ObjectIDFromHex id) as [oid|e] eqn:Hid; [|left; reflexivity].
  repeat case_match; simpl in *; simplify_eq/=; try (left; reflexivity).
  all: right; exists oid; eexists; repeat split; eauto.
  all: try (apply String.eqb_eq; assumption).
Qed.

Lemma complete_documents (id : string) (w : World) :
  status_step "processing" "processed" id w (exec (TrackProcessingComplete id) w).
Proof.
  destruct w as [tasks docs faults now down pf pub].
  unfold status_step. go_unfold. simpl.
  destruct (tasks !! id) as [m|] eqn:H; [|left; reflexivity].
  simpl. rewrite H, lookup_insert_eq.
  destruct (int_decr m <=? 0); [|left; reflexivity]. simpl.
  destruct (ObjectIDFromHex id) as [oid|e] eqn:Hid; [|left; reflexivity].
  repeat case_match; simpl in *; simplify_eq/=; try (left; reflexivity).
  all: right; exists oid; eexists; repeat split; eauto.
  all: try (apply String.eqb_eq; assumption).
Qed.

(** With the database answering, a start on a draft record. *)
Lemma start_draft (id : string) (oid : ObjectID) (n : Z) (c : MRContent) (w : World) :
  db_faults w = [] -> 0 < n -> ObjectIDFromHex id = Ok oid ->
  documents w !! oid = Some c -> Status c = "draft" ->
  TrackProcessingStart id n w
  = (Ok tt, set_documents (insert oid (apply_set (status_update "processing" (clock w)) c))
              (set_processingTasks (insert id n) w)).
Proof.
  intros Hf Hn Hid Hc Hs. destruct w as [tasks docs faults now down pf pub].
  go_unfold. simpl in *. subst faults.
  destruct (n <=? 0) eqn:E; [apply Z.leb_le in E; lia|].
  simpl. rewrite Hid. simpl. rewrite Hc. simpl. rewrite Hs. simpl.
  rewrite Hc. unfold matches. simpl. rewrite Hs. reflexivity.
Qed.

(** With the database answering, the completion that empties the entry
    of a record in [processing]. *)
Lemma complete_last (id : string) (oid : ObjectID) (m : Z) (c : MRContent) (w : World) :
  db_faults w = [] -> processingTasks w !! id = Some m -> int_decr m <= 0 ->
  ObjectIDFromHex id = Ok oid -> documents w !! oid = Some c ->
  Status c = "processing" ->
  TrackProcessingComplete id w
  = (Ok tt, set_documents (insert oid (apply_set (status_update "processed" (clock w)) c))
              (set_processingTasks (delete id) w)).
Proof.
  intros Hf Hm Hle Hid Hc Hs. destruct w as [tasks docs faults now down pf pub].
  go_unfold. simpl in *. subst faults. rewrite Hm. simpl. rewrite Hm, lookup_insert_eq.
  destruct (int_decr m <=? 0) eqn:E; [|apply Z.leb_gt in E; lia].
  simpl. rewrite Hid. simpl. rewrite Hc. simpl. rewrite Hs. simpl.
  rewrite Hc. unfold matches. simpl. rewrite Hs. rewrite delete_insert_eq. reflexivity.
Qed.

(** Fewer completions than the count: only the count moves. *)
Lemma completions_pending (id : string) (k : nat) :
  forall (m : Z) (w : World),
    processingTasks w !! id = Some m -> 0 < m <= max_int -> Z.of_nat k < m ->
    completions k id w = (Ok tt, set_processingTasks (insert id (m - Z.of_nat k)) w).
Proof.
  unfold completions. induction k as [|k IH]; intros m w Hm Hr Hk.
  - simpl. unfold ret. f_equal. rewrite Z.sub_0_r.
    destruct w as [tasks docs faults now down pf pub].
    unfold set_processingTasks. simpl in *.
    f_equal. symmetry. apply insert_id. exact Hm.
  - cbn [times]. unfold bind.
    rewrite (complete_pending id m w Hm) by (rewrite int_decr_pos; lia).
    rewrite int_decr_pos by lia.
    rewrite (IH (m - 1)); [| |lia|lia].
    + f_equal. destruct w as [tasks docs faults now down pf pub].
      unfold set_processingTasks. simpl. f_equal. rewrite insert_insert_eq. f_equal. lia.
    + unfold set_processingTasks. simpl. apply lookup_insert_eq.
Qed.

Lemma completions_absent (id : string) (k : nat) (w : World) :
  processingTasks w !! id = None -> completions k id w = (Ok tt, w).
Proof.
  intros H. unfold completions. induction k as [|k IH]; [reflexivity|].
  cbn [times]. unfold bind. rewrite complete_absent by exact H. exact IH.
Qed.

Lemma logged_completions_absent (id : string) (k : nat) (w : World) :
  processingTasks w !! id = None -> logged_completions k id w = (Ok tt, w).
Proof.
  intros H. unfold logged_completions. induction k as [|k IH]; [reflexivity|].
  cbn [times]. unfold bind, logged. rewrite complete_absent by exact H. exact IH.
Qed.

(** The entry after [k] completions by a caller that goes on after errors. *)
Lemma logged_completions_entry (id : string) (k : nat) :
  forall (m : Z) (w : World),
    processingTasks w !! id = Some m -> 0 < m <= max_int ->
    processingTasks (exec (logged_completions k id) w) !! id
    = if Z.of_nat k <? m then Some (m - Z.of_nat k) else None.
Proof.
  unfold logged_completions. induction k as [|k IH]; intros m w Hm Hr.
  - cbn [times]. unfold exec, ret. cbn [snd]. change (Z.of_nat 0) with 0.
    destruct (0 <? m) eqn:E; [|apply Z.ltb_ge in E; lia].
    rewrite Z.sub_0_r. exact Hm.
  - rewrite exec_times_S by apply logged_ok. rewrite exec_logged.
    pose proof (complete_tasks id w) as Ht. rewrite Hm in Ht.
    rewrite int_decr_pos in Ht by lia.
    set (w1 := exec (TrackProcessingComplete id) w) in *.
    destruct (m - 1 <=? 0) eqn:E.
    + apply Z.leb_le in E. assert (m = 1) by lia. subst m.
      assert (Habs : processingTasks w1 !! id = None).
      { rewrite Ht. apply lookup_delete_eq. }
      fold (logged_completions k id). unfold exec.
      rewrite (logged_completions_absent id k w1 Habs). cbn [snd]. rewrite Habs.
      destruct (Z.of_nat (S k) <? 1) eqn:E2; [apply Z.ltb_lt in E2; lia|reflexivity].
    + apply Z.leb_gt in E.
      rewrite (IH (m - 1)); [| rewrite Ht; apply lookup_insert_eq | lia].
      destruct (Z.of_nat k <? m - 1) eqn:E1, (Z.of_nat (S k) <? m) eqn:E2;
        rewrite ?Z.ltb_lt, ?Z.ltb_ge in *; try lia.
      * f_equal. lia.
      * reflexivity.
Qed.


(* ===================================================================== *)
(** * The tracker's state machine *)
(* ===================================================================== *)

(** C1. A start with a positive count on a draft record, the database
    answering, moves the record to [processing]; after [k < n] completions
    the entry holds [n - k] and the status is still [processing]; after
    exactly [n] completions the entry is gone and the status is
    [processed]. A completion takes no outcome, so success and failure
    count alike. *)
Theorem tracker_counts_down_to_processed
    (id : string) (oid : ObjectID) (n : Z) (c : MRContent) (w : World) :
  0 < n <= max_int ->
  ObjectIDFromHex id = Ok oid ->
  documents w !! oid = Some c ->
  Status c = "draft" ->
  db_faults w = [] ->
  let started := exec (TrackProcessingStart id n) w in
  status_of started oid = Some "processing"
  /\ (forall k : nat, Z.of_nat k < n ->
        returned (completions k id) started = Ok tt
        /\ processingTasks (exec (completions k id) started) !! id = Some (n - Z.of_nat k)
        /\ status_of (exec (completions k id) started) oid = Some "processing")
  /\ returned (completions (Z.to_nat n) id) started = Ok tt
  /\ processingTasks (exec (completions (Z.to_nat n) id) started) !! id = None
  /\ status_of (exec (completions (Z.to_nat n) id) started) oid = Some "processed".
Proof.
  intros Hn Hid Hc Hs Hf started.
  assert (Hstart : started
    = set_documents (insert oid (apply_set (status_update "processing" (clock w)) c))
        (set_processingTasks (insert id n) w)).
  { unfold started, exec. rewrite (start_draft id oid n c w) by (assumption || lia). reflexivity. }
  assert (Htasks : processingTasks started !! id = Some n).
  { rewrite Hstart. simpl. apply lookup_insert_eq. }
  assert (Hpend : forall k : nat, Z.of_nat k < n ->
            completions k id started
            = (Ok tt, set_processingTasks (insert id (n - Z.of_nat k)) started)).
  { intros k Hk. apply completions_pending; [exact Htasks|lia|lia]. }
  split; [|split].
  - rewrite Hstart. unfold status_of. simpl. rewrite lookup_insert_eq. reflexivity.
  - intros k Hk. unfold returned, exec. rewrite (Hpend k Hk). simpl.
    split; [reflexivity|]. split; [apply lookup_insert_eq|].
    rewrite Hstart. unfold status_of. simpl. rewrite lookup_insert_eq. reflexivity.
  - assert (Hsplit : Z.to_nat n = (Z.to_nat (n - 1) + 1)%nat) by lia.
    assert (Hlast : completions (Z.to_nat n) id started
              = (Ok tt, set_documents
                   (insert oid (apply_set (status_update "processed" (clock w))
                                  (apply_set (status_update "processing" (clock w)) c)))
                   (set_processingTasks (delete id) started))).
    { unfold completions. rewrite Hsplit, times_app.
      fold (completions (Z.to_nat (n - 1)) id). rewrite Hpend by lia.
      cbn [times]. unfold bind.
      erewrite complete_last.
      - unfold ret. f_equal. rewrite Hstart. unfold set_documents, set_processingTasks. simpl.
        f_equal. rewrite delete_insert_eq. reflexivity.
      - rewrite Hstart. simpl. exact Hf.
      - simpl. apply lookup_insert_eq.
      - rewrite int_decr_pos by lia. lia.
      - exact Hid.
      - rewrite Hstart. simpl. apply lookup_insert_eq.
      - reflexivity. }
    unfold returned, exec. rewrite Hlast. simpl.
    split; [reflexivity|]. split; [apply lookup_delete_eq|].
    unfold status_of. simpl. rewrite lookup_insert_eq. reflexivity.
Qed.

(** Three tasks on the sample record. *)
Lemma tracker_counts_down_witness :
  status_of (exec (TrackProcessingStart sample_id 3) quiet_world) sample_oid
    = Some "processing"
  /\ status_of (exec (completions 3 sample_id)
                  (exec (TrackProcessingStart sample_id 3) quiet_world)) sample_oid
    = Some "processed".
Proof.
  pose proof (tracker_counts_down_to_processed
                sample_id sample_oid 3 draft_record quiet_world) as H.
  cbv zeta in H.
  destruct H as (H1 & _ & _ & _ & H5).
  - unfold max_int. lia.
  - reflexivity.
  - vm_compute. reflexivity.
  - reflexivity.
  - reflexivity.
  - split; [exact H1|exact H5].
Defined.

(** C6. Without an entry for the id, a completion returns no error and
    leaves the whole world (table and store) as it was, however often it
    is repeated; in particular, once [n] completions have removed the
    entry a start created, any number of further completions is a no-op. *)
Theorem complete_without_entry_is_noop (id : string) (w : World) :
  processingTasks w !! id = None ->
  TrackProcessingComplete id w = (Ok tt, w)
  /\ (forall k : nat, completions k id w = (Ok tt, w))
  /\ (forall (n : Z) (w0 : World) (k : nat), 0 < n <= max_int ->
        let settled := exec (logged_completions (Z.to_nat n) id)
                            (exec (TrackProcessingStart id n) w0) in
        processingTasks settled !! id = None
        /\ completions k id settled = (Ok tt, settled)).
Proof.
  intros Habs. split; [|split].
  - apply complete_absent. exact Habs.
  - intros k. apply completions_absent. exact Habs.
  - intros n w0 k Hn settled.
    assert (Hgone : processingTasks settled !! id = None).
    { unfold settled.
      rewrite (logged_completions_entry id (Z.to_nat n) n);
        [| rewrite start_tasks by lia; apply lookup_insert_eq | exact Hn].
      destruct (Z.of_nat (Z.to_nat n) <? n) eqn:E; [apply Z.ltb_lt in E; lia|reflexivity]. }
    split; [exact Hgone|]. apply completions_absent. exact Hgone.
Qed.

(** Nothing is tracked in the sample world. *)
Lemma complete_without_entry_witness :
  TrackProcessingComplete sample_id quiet_world = (Ok tt, quiet_world).
Proof.
  apply (complete_without_entry_is_noop sample_id quiet_world). reflexivity.
Defined.

(** C7. A start changes the status of a record only from [draft] to
    [processing], a completion only from [processing] to [processed]; a
    record in any other status keeps it; the update both use, keyed on
    the expected status, changes no document whose status is another; and
    the tracker's third operation, the status query, writes nothing. *)
Theorem tracker_status_transitions (id : string) (n : Z) (w : World) (oid : ObjectID) :
  let started := exec (TrackProcessingStart id n) w in
  let completed := exec (TrackProcessingComplete id) w in
  (status_of started oid = status_of w oid
   \/ (status_of w oid = Some "draft" /\ status_of started oid = Some "processing"))
  /\ (status_of completed oid = status_of w oid
      \/ (status_of w oid = Some "processing" /\ status_of completed oid = Some "processed"))
  /\ (status_of w oid <> Some "draft" -> status_of started oid = status_of w oid)
  /\ (status_of w oid <> Some "processing" -> status_of completed oid = status_of w oid)
  /\ (forall (s : string) (u : SetDoc), status_of w oid <> Some s ->
        documents (exec (UpdateOne (status_filter oid s) u) w) = documents w)
  /\ documents (exec (GetProcessingStatus id) w) = documents w.
Proof.
  intros started completed.
  assert (Hstep : forall from to w',
            status_step from to id w w' ->
            status_of w' oid = status_of w oid
            \/ (status_of w oid = Some from /\ status_of w' oid = Some to)).
  { intros from to w' [Hsame|(o & c & _ & Hc & Hs & Hd)].
    - left. unfold status_of. rewrite Hsame. reflexivity.
    - unfold status_of. rewrite Hd. destruct (decide (o = oid)) as [->|Hne].
      + right. rewrite lookup_insert_eq, Hc. simpl. rewrite Hs. split; reflexivity.
      + left. rewrite lookup_insert_ne by exact Hne. reflexivity. }
  pose proof (Hstep _ _ _ (start_documents id n w)) as H1.
  pose proof (Hstep _ _ _ (complete_documents id w)) as H2.
  fold started in H1. fold completed in H2.
  split; [exact H1|]. split; [exact H2|]. split; [|split; [|split]].
  - intros Hne. destruct H1 as [H|[H _]]; [exact H|contradiction].
  - intros Hne. destruct H2 as [H|[H _]]; [exact H|contradiction].
  - intros s u Hne. destruct w as [tasks docs faults now down pf pub].
    unfold status_of in Hne. go_unfold. unfold status_filter, matches. simpl in *.
    destruct (docs !! oid) as [c|] eqn:Hc; simpl in *.
    + destruct (String.eqb (Status c) s) eqn:E.
      * apply String.eqb_eq in E. subst s. contradiction Hne. reflexivity.
      * repeat case_match; reflexivity.
    + repeat case_match; reflexivity.
  - destruct w as [tasks docs faults now down pf pub]. go_unfold. simpl.
    repeat (case_match; simpl in *; simplify_eq/=); reflexivity.
Qed.

(** C8. A start with [n <= 0] changes nothing; with [n > 0] the table
    becomes the old one with the id bound to [n]; two starts in a row
    leave the old table with the id bound to the second count. *)
Theorem start_sets_the_count (id : string) (w : World) :
  (forall n : Z, n <= 0 -> TrackProcessingStart id n w = (Ok tt, w))
  /\ (forall n : Z, 0 < n ->
        processingTasks (exec (TrackProcessingStart id n) w)
        = <[id := n]> (processingTasks w))
  /\ (forall n1 n2 : Z, 0 < n1 -> 0 < n2 ->
        processingTasks (exec (TrackProcessingStart id n2)
                           (exec (TrackProcessingStart id n1) w))
        = <[id := n2]> (processingTasks w)).
Proof.
  split; [|split].
  - intros n Hn. apply start_skipped. exact Hn.
  - intros n Hn. apply start_tasks. exact Hn.
  - intros n1 n2 H1 H2. rewrite !start_tasks by assumption. apply insert_insert_eq.
Qed.

(* ===================================================================== *)
(** * Ingesting results *)
(* ===================================================================== *)

Lemma is_empty_true (s : string) : is_empty s = true <-> s = "".
Proof. unfold is_empty. apply String.eqb_eq. Qed.

Lemma is_empty_false (s : string) : is_empty s = false <-> s <> "".
Proof. unfold is_empty. apply String.eqb_neq. Qed.

Lemma lacks_required_fields_true (r : MediaProcessResult) :
  lacks_required_fields r = true
  <-> ContentID r = "" \/ (ProcessedURL r = "" /\ HlsURL r = "" /\ DashURL r = "").
Proof.
  unfold lacks_required_fields.
  rewrite orb_true_iff, !andb_true_iff, !is_empty_true. tauto.
Qed.

Lemma lacks_required_fields_false (r : MediaProcessResult) :
  lacks_required_fields r = false
  <-> ContentID r <> "" /\ (ProcessedURL r <> "" \/ HlsURL r <> "" \/ DashURL r <> "").
Proof.
  unfold lacks_required_fields.
  rewrite orb_false_iff, !andb_false_iff, !is_empty_false. tauto.
Qed.

Lemma status_step_media (from to id : string) (w w' : World) (oid : ObjectID) :
  status_step from to id w w' -> media_of w' oid = media_of w oid.
Proof.
  intros [Hsame|(o & c & _ & Hc & _ & Hd)]; unfold media_of.
  - rewrite Hsame. reflexivity.
  - rewrite Hd. destruct (decide (o = oid)) as [->|Hne].
    + rewrite lookup_insert_eq, Hc. reflexivity.
    + rewrite lookup_insert_ne by exact Hne. reflexivity.
Qed.

Lemma processMediaResult_rejected (r : MediaProcessResult) (w : World) :
  lacks_required_fields r = true ->
  processMediaResult r w = (Err ErrMissingRequiredFields, w).
Proof.
  intros H. unfold processMediaResult. fold (lacks_required_fields r). rewrite H.
  reflexivity.
Qed.

Lemma processMediaResult_failed (r : MediaProcessResult) (w : World) :
  lacks_required_fields r = false -> Success r = false ->
  processMediaResult r w = (Ok tt, exec (TrackProcessingComplete (ContentID r)) w).
Proof.
  intros H Hs. unfold processMediaResult. fold (lacks_required_fields r).
  rewrite H, Hs. reflexivity.
Qed.

(** C3, amended. A result with [success = false] never changes a media
    field of any record. When it carries a content id and at least one of
    the three URLs, [processMediaResult] returns no error and leaves the
    world exactly as [TrackProcessingComplete] on its content id does; when
    the content id or all three URLs are empty it is rejected before the
    success flag is read, and nothing changes. *)
Theorem failed_result_only_completes (r : MediaProcessResult) (w : World) :
  Success r = false ->
  (forall oid : ObjectID, media_of (exec (processMediaResult r) w) oid = media_of w oid)
  /\ (ContentID r <> "" ->
      ProcessedURL r <> "" \/ HlsURL r <> "" \/ DashURL r <> "" ->
      processMediaResult r w = (Ok tt, exec (TrackProcessingComplete (ContentID r)) w))
  /\ (ContentID r = "" \/ (ProcessedURL r = "" /\ HlsURL r = "" /\ DashURL r = "") ->
      processMediaResult r w = (Err ErrMissingRequiredFields, w)).
Proof.
  intros Hs. split; [|split].
  - intros oid. destruct (lacks_required_fields r) eqn:Hl.
    + unfold exec. rewrite (processMediaResult_rejected r w Hl). reflexivity.
    + unfold exec at 1. rewrite (processMediaResult_failed r w Hl Hs). cbn [snd].
      eapply status_step_media. apply complete_documents.
  - intros Hid Hurl. apply processMediaResult_failed; [|exact Hs].
    apply lacks_required_fields_false. split; assumption.
  - intros Hmissing. apply processMediaResult_rejected.
    apply lacks_required_fields_true. exact Hmissing.
Qed.

(** C3 as stated fails: a failed result without URLs is rejected, and the
    count stays at 2 where a completion would have brought it to 1. *)
Lemma failed_result_without_urls_is_dropped :
  Success failed_without_urls = false
  /\ returned (processMediaResult failed_without_urls) tracking_world
     = Err ErrMissingRequiredFields
  /\ processingTasks (exec (processMediaResult failed_without_urls) tracking_world)
       !! ContentID failed_without_urls = Some 2
  /\ processingTasks (exec (TrackProcessingComplete (ContentID failed_without_urls))
                        tracking_world)
       !! ContentID failed_without_urls = Some 1.
Proof. vm_compute. repeat split; reflexivity. Qed.

(** A failed result that carries a URL advances the count. *)
Lemma failed_result_witness :
  processingTasks (exec (processMediaResult failed_with_url) tracking_world) !! sample_id
  = Some 1.
Proof.
  pose proof (failed_result_only_completes failed_with_url tracking_world) as H.
  destruct H as (_ & H & _); [reflexivity|].
  assert (Hid : ContentID failed_with_url <> "") by discriminate.
  assert (Hurl : ProcessedURL failed_with_url <> "" \/ HlsURL failed_with_url <> ""
                 \/ DashURL failed_with_url <> "") by (left; discriminate).
  specialize (H Hid Hurl). unfold exec at 1. rewrite H.
  vm_compute. reflexivity.
Defined.

(* ===================================================================== *)
(** * The alpha flag *)
(* ===================================================================== *)

Lemma alpha_kept_refl (w : World) : alpha_kept w w.
Proof. intros oid c Hc Ha. exists c. split; assumption. Qed.

Lemma alpha_kept_trans (w1 w2 w3 : World) :
  alpha_kept w1 w2 -> alpha_kept w2 w3 -> alpha_kept w1 w3.
Proof.
  intros H12 H23 oid c Hc Ha.
  destruct (H12 oid c Hc Ha) as (c2 & Hc2 & Ha2). exact (H23 oid c2 Hc2 Ha2).
Qed.

Lemma alpha_kept_same_documents (w w' : World) :
  documents w' = documents w -> alpha_kept w w'.
Proof. intros Hd oid c Hc Ha. exists c. rewrite Hd. split; assumption. Qed.

Lemma UpdateOne_alpha (f : Filter) (u : SetDoc) :
  set_has_alpha u <> Some false -> keeps alpha_kept (UpdateOne f u).
Proof.
  intros Hu. unfold UpdateOne.
  apply (keeps_db_call alpha_kept alpha_kept_trans).
  { intros fs w. apply alpha_kept_same_documents. reflexivity. }
  intros w. unfold exec.
  destruct (documents w !! flt_id f) as [c|] eqn:Hc; [|apply alpha_kept_refl].
  destruct (matches f c); [|apply alpha_kept_refl].
  unfold set_documents. simpl. intros oid c0 Hc0 Ha. simpl.
  destruct (decide (flt_id f = oid)) as [<-|Hne].
  - exists (apply_set u c). rewrite lookup_insert_eq. split; [reflexivity|].
    rewrite Hc in Hc0. injection Hc0 as <-. simpl. unfold or_keep.
    destruct (set_has_alpha u) as [[]|]; [reflexivity|contradiction|exact Ha].
  - exists c0. rewrite lookup_insert_ne by exact Hne. split; assumption.
Qed.

Lemma FindOne_alpha (id : ObjectID) : keeps alpha_kept (FindOne id).
Proof.
  unfold FindOne. apply (keeps_db_call alpha_kept alpha_kept_trans).
  { intros fs w. apply alpha_kept_same_documents. reflexivity. }
  intros w. unfold exec. destruct (documents w !! id); apply alpha_kept_refl.
Qed.

Lemma modify_tasks_alpha (f : gmap string Z -> gmap string Z) :
  keeps alpha_kept (modify (set_processingTasks f)).
Proof. intros w. apply alpha_kept_same_documents. reflexivity. Qed.

Ltac alpha_step :=
  lazymatch goal with
  | |- keeps _ (ret _) => apply (keeps_ret alpha_kept alpha_kept_refl)
  | |- keeps _ (fail _) => apply (keeps_fail alpha_kept alpha_kept_refl)
  | |- keeps _ (lift _) => apply (keeps_lift alpha_kept alpha_kept_refl)
  | |- keeps _ (gets _) => apply (keeps_gets alpha_kept alpha_kept_refl)
  | |- keeps _ time_Now => apply (keeps_gets alpha_kept alpha_kept_refl)
  | |- keeps _ (modify (set_processingTasks _)) => apply modify_tasks_alpha
  | |- keeps _ (FindOne _) => apply FindOne_alpha
  | |- keeps _ (logged _) => apply (keeps_logged alpha_kept)
  | |- keeps _ (wrapped _ _) => apply (keeps_wrapped alpha_kept)
  | |- keeps _ (bind _ _) =>
      apply (keeps_bind alpha_kept alpha_kept_trans); [|intros ?]
  | |- keeps _ (match _ with _ => _ end) => case_match
  end.

Lemma TrackProcessingComplete_alpha (id : string) :
  keeps alpha_kept (TrackProcessingComplete id).
Proof.
  unfold TrackProcessingComplete.
  repeat alpha_step; apply UpdateOne_alpha; discriminate.
Qed.

Lemma media_updates_has_alpha (r : MediaProcessResult) (c : MRContent) (u : SetDoc) :
  set_has_alpha (media_updates r c u) = set_has_alpha u.
Proof. unfold media_updates. repeat case_match; reflexivity. Qed.

Lemma build_updateOps_has_alpha (r : MediaProcessResult) (c : MRContent) (now : Time) :
  set_has_alpha (build_updateOps r c now) = if res_HasAlpha r then Some true else None.
Proof.
  unfold build_updateOps. rewrite media_updates_has_alpha.
  repeat case_match; reflexivity.
Qed.

Lemma processMediaResult_alpha (r : MediaProcessResult) :
  keeps alpha_kept (processMediaResult r).
Proof.
  unfold processMediaResult.
  repeat alpha_step; try apply TrackProcessingComplete_alpha.
  apply UpdateOne_alpha. rewrite build_updateOps_has_alpha.
  destruct (res_HasAlpha r); discriminate.
Qed.

(** C10. Whatever results are ingested, a record whose [has_alpha] is
    true is still stored with [has_alpha] true afterwards; the update set
    holds [has_alpha] exactly when the result's flag is true, and then
    with the value true. *)
Theorem has_alpha_is_never_cleared
    (results : list MediaProcessResult) (w : World) (oid : ObjectID) (c : MRContent) :
  documents w !! oid = Some c ->
  HasAlpha c = true ->
  (exists c', documents (exec (ingest results) w) !! oid = Some c' /\ HasAlpha c' = true)
  /\ (forall (r : MediaProcessResult) (content : MRContent) (now : Time),
        set_has_alpha (build_updateOps r content now)
        = if res_HasAlpha r then Some true else None).
Proof.
  intros Hc Ha. split.
  - assert (Hk : keeps alpha_kept (ingest results)).
    { unfold ingest. apply (keeps_for_each alpha_kept alpha_kept_refl alpha_kept_trans).
      intros r. apply keeps_logged. apply processMediaResult_alpha. }
    exact (Hk w oid c Hc Ha).
  - intros r content now. apply build_updateOps_has_alpha.
Qed.

(* ===================================================================== *)
(** * Dispatching *)
(* ===================================================================== *)

Lemma same_state_refl (w : World) : same_state w w.
Proof. unfold same_state. repeat split; reflexivity. Qed.

Lemma same_state_trans (w1 w2 w3 : World) :
  same_state w1 w2 -> same_state w2 w3 -> same_state w1 w3.
Proof.
  unfold same_state. intros (A1 & B1 & C1 & D1 & E1 & F1) (A2 & B2 & C2 & D2 & E2 & F2).
  repeat split; congruence.
Qed.

Lemma publishToNATS_same_state (req : TranscodeRequest) (subject : string) :
  keeps same_state (publishToNATS req subject).
Proof.
  intros w. unfold exec, publishToNATS.
  destruct (publish_fails w subject req); simpl; [apply same_state_refl|].
  unfold same_state. repeat split; reflexivity.
Qed.

Lemma processImage_same_state (req : TranscodeRequest) :
  keeps same_state (processImage req).
Proof.
  unfold processImage. destruct (is_empty (ImageURL req)).
  - apply (keeps_ret same_state same_state_refl).
  - apply (keeps_or_return same_state same_state_trans).
    + apply publishToNATS_same_state.
    + intros _. apply (keeps_ret same_state same_state_refl).
Qed.

Lemma processImage_ok (req : TranscodeRequest) : always_ok (processImage req).
Proof.
  intros w. unfold processImage, returned.
  destruct (is_empty (ImageURL req)); [reflexivity|].
  unfold or_return. destruct (publishToNATS req "compressimage" w) as [[[]|e] w']; reflexivity.
Qed.

Lemma send_images_same_state (c : MRContent) (id org : string) :
  keeps same_state (send_images c id org).
Proof.
  unfold send_images.
  apply (keeps_for_each same_state same_state_refl same_state_trans).
  intros img. destruct (is_original img);
    [apply processImage_same_state|apply (keeps_ret same_state same_state_refl)].
Qed.

Lemma send_images_ok (c : MRContent) (id org : string) :
  always_ok (send_images c id org).
Proof.
  unfold send_images. apply for_each_ok. intros img.
  destruct (is_original img); [apply processImage_ok|intros w; reflexivity].
Qed.

Lemma scan_objects_noop (c : MRContent) (w : World) : scan_objects c w = (Ok tt, w).
Proof.
  unfold scan_objects. induction (elems (Objects_3D c)) as [|obj l IH]; [reflexivity|].
  cbn [for_each]. unfold bind, ret. exact IH.
Qed.

Lemma first_value_original (l : list Media) :
  non_empty (first_value is_original l) = existsb is_original l.
Proof.
  induction l as [|m l IH]; [reflexivity|].
  cbn [first_value existsb]. destruct (is_original m) eqn:E; [|exact IH].
  unfold is_original in E. apply andb_true_iff in E. destruct E as [_ E]. exact E.
Qed.

Lemma start_publish_fails (id : string) (n : Z) (w : World) :
  publish_fails (exec (TrackProcessingStart id n) w) = publish_fails w.
Proof.
  destruct w as [tasks docs faults now down pf pub]. go_unfold.
  repeat (case_match; simpl in *; simplify_eq/=); reflexivity.
Qed.

(** The goroutine after a start, for a record with an original video
    whose request the bus refuses. *)
Lemma queue_media_video_refused (c : MRContent) (id : string) (w : World) :
  existsb is_original (elems (Videos c)) = true ->
  publish_fails w "createexperience" (video_request c id (Hex (OrganizationID c))) = true ->
  exec (queue_media c id) w
  = exec (logged_completions 3 id) (exec (send_images c id (Hex (OrganizationID c))) w).
Proof.
  intros Hv Hp. unfold queue_media.
  rewrite exec_bind_ok by apply send_images_ok.
  set (org := Hex (OrganizationID c)) in *.
  pose proof (send_images_same_state c id org w) as (_ & _ & _ & _ & _ & Hpf).
  set (w1 := exec (send_images c id org) w) in *.
  unfold send_video. rewrite first_value_original, Hv.
  unfold exec at 1. unfold bind, on_error, publishToNATS. rewrite Hpf, Hp.
  fold (logged_completions 3 id).
  pose proof (times_ok 3 (logged (TrackProcessingComplete id)) (logged_ok _) w1) as Hok.
  unfold returned in Hok. fold (logged_completions 3 id) in Hok.
  unfold exec. destruct (logged_completions 3 id w1) as [r w2]. simpl in Hok. subst r.
  rewrite scan_objects_noop. reflexivity.
Qed.

(** The goroutine for a record without an original video: only the bus
    may differ afterwards. *)
Lemma queue_media_no_video (c : MRContent) (id : string) :
  existsb is_original (elems (Videos c)) = false ->
  keeps same_state (queue_media c id).
Proof.
  intros Hv. unfold queue_media.
  apply (keeps_bind same_state same_state_trans); [apply send_images_same_state|].
  intros _. apply (keeps_bind same_state same_state_trans).
  - unfold send_video. rewrite first_value_original, Hv.
    apply (keeps_ret same_state same_state_refl).
  - intros _ w. unfold exec. rewrite scan_objects_noop. apply same_state_refl.
Qed.

Lemma ProcessMediaForContent_dispatches (c : MRContent) (w : World) :
  nats_down w = false -> 0 < CountMediaTasks c ->
  exec (ProcessMediaForContent c) w
  = exec (queue_media c (Hex (ID c)))
      (exec (TrackProcessingStart (Hex (ID c)) (CountMediaTasks c)) w).
Proof.
  intros Hn Hc. unfold ProcessMediaForContent, or_return, GetNATS. unfold exec at 1.
  rewrite Hn. destruct (CountMediaTasks c <=? 0) eqn:E; [apply Z.leb_le in E; lia|].
  fold (exec (logged (TrackProcessingStart (Hex (ID c)) (CountMediaTasks c));;;
              queue_media c (Hex (ID c))) w).
  rewrite exec_bind_ok by apply logged_ok. reflexivity.
Qed.

(** C9. When the bus refuses the [createexperience] request of a record
    with an original video, [ProcessMediaForContent] ends as the start, the
    image requests and then three completions for the content id leave the
    world: of a count [n] above 3, [n - 3] remains, otherwise the entry is
    gone. Sending an image never touches the tracker or the store, the 3D
    objects are only scanned, and for a record without an original video
    the entry still holds the full count whatever the bus refused. *)
Theorem video_publish_failure_completes_three_times (content : MRContent) (w : World) :
  let id := Hex (ID content) in
  let org := Hex (OrganizationID content) in
  let n := CountMediaTasks content in
  nats_down w = false ->
  0 < n ->
  existsb is_original (elems (Videos content)) = true ->
  publish_fails w "createexperience" (video_request content id org) = true ->
  exec (ProcessMediaForContent content) w
  = exec (logged_completions 3 id)
      (exec (send_images content id org) (exec (TrackProcessingStart id n) w))
  /\ processingTasks (exec (ProcessMediaForContent content) w) !! id
     = (if 3 <? n then Some (n - 3) else None)
  /\ (forall (req : TranscodeRequest) (w' : World),
        same_state w' (exec (processImage req) w'))
  /\ (forall w' : World, scan_objects content w' = (Ok tt, w'))
  /\ (forall (c' : MRContent) (w' : World),
        nats_down w' = false -> 0 < CountMediaTasks c' ->
        existsb is_original (elems (Videos c')) = false ->
        processingTasks (exec (ProcessMediaForContent c') w') !! Hex (ID c')
        = Some (CountMediaTasks c')).
Proof.
  intros id org n Hn Hpos Hv Hp.
  assert (Hrun : exec (ProcessMediaForContent content) w
                 = exec (logged_completions 3 id)
                     (exec (send_images content id org)
                        (exec (TrackProcessingStart id n) w))).
  { rewrite ProcessMediaForContent_dispatches by assumption.
    apply queue_media_video_refused; [exact Hv|].
    rewrite start_publish_fails. exact Hp. }
  split; [exact Hrun|]. split; [|split; [|split]].
  - rewrite Hrun.
    pose proof (CountMediaTasks_is_int content) as Hint. fold n in Hint.
    rewrite (logged_completions_entry id 3 n).
    + reflexivity.
    + destruct (send_images_same_state content id org (exec (TrackProcessingStart id n) w))
        as (Ht & _).
      rewrite Ht, start_tasks by exact Hpos. apply lookup_insert_eq.
    + unfold is_int in Hint. lia.
  - intros req w'. apply processImage_same_state.
  - intros w'. apply scan_objects_noop.
  - intros c' w' Hn' Hpos' Hv'.
    rewrite ProcessMediaForContent_dispatches by assumption.
    destruct (queue_media_no_video c' (Hex (ID c')) Hv'
                (exec (TrackProcessingStart (Hex (ID c')) (CountMediaTasks c')) w'))
      as (Ht & _).
    rewrite Ht, start_tasks by exact Hpos'. apply lookup_insert_eq.
Qed.

(* ===================================================================== *)
(** * Merging media lists *)
(* ===================================================================== *)

Lemma media_eta (m : Media) : mkMedia (Key m) (Value m) = m.
Proof. destruct m; reflexivity. Qed.

Lemma last_value_None (k : string) (l : list Media) :
  last_value k l = None <-> k ∉ keys l.
Proof.
  unfold keys. induction l as [|m l IH]; simpl.
  - split; [intros _; apply not_elem_of_nil|reflexivity].
  - rewrite not_elem_of_cons. destruct (last_value k l) as [v|].
    + split; [discriminate|]. intros [_ H]. apply IH in H. discriminate.
    + destruct (decide (Key m = k)) as [E|E].
      * split; [discriminate|]. intros [H _]. congruence.
      * split; [|reflexivity]. intros _. split; [congruence|]. apply IH. reflexivity.
Qed.

Lemma last_value_NoDup (k v : string) (l : list Media) :
  NoDup (keys l) -> last_value k l = Some v <-> mkMedia k v ∈ l.
Proof.
  unfold keys. induction l as [|m l IH]; simpl; intros Hnd.
  - split; [discriminate|]. intros H. apply elem_of_nil in H. contradiction.
  - apply NoDup_cons in Hnd. destruct Hnd as [Hm Hnd]. specialize (IH Hnd).
    rewrite elem_of_cons. destruct (last_value k l) as [v'|] eqn:El.
    + split.
      * intros [= ->]. right. apply IH. reflexivity.
      * intros [Heq|Hin].
        -- subst m. simpl in Hm. exfalso. apply Hm.
           assert (Hk : last_value k l <> None) by (rewrite El; discriminate).
           rewrite last_value_None in Hk. unfold keys in Hk.
           destruct (decide (k ∈ Key <$> l)); [assumption|contradiction].
        -- apply IH in Hin. exact Hin.
    + destruct (decide (Key m = k)) as [E|E].
      * split.
        -- intros [= <-]. left. subst k. apply media_eta.
        -- intros [Heq|Hin]; [subst m; reflexivity|].
           apply IH in Hin. discriminate.
      * split; [discriminate|]. intros [Heq|Hin].
        -- subst m. simpl in E. contradiction.
        -- apply IH in Hin. discriminate.
Qed.

Lemma fold_put_lookup (l : list Media) (m : gmap string string) (k : string) :
  fold_left put l m !! k
  = match last_value k l with Some v => Some v | None => m !! k end.
Proof.
  revert m. induction l as [|x l IH]; intros m; [reflexivity|].
  cbn [fold_left last_value]. rewrite IH.
  destruct (last_value k l) as [v|]; [reflexivity|].
  unfold put. destruct (decide (Key x = k)) as [<-|E].
  - apply lookup_insert_eq.
  - apply lookup_insert_ne. exact E.
Qed.

Lemma mediaMap_lookup (e n : list Media) (k : string) :
  mediaMap e n !! k
  = match last_value k n with Some v => Some v | None => last_value k e end.
Proof.
  unfold mediaMap. rewrite !fold_put_lookup. rewrite lookup_empty.
  destruct (last_value k n); [reflexivity|]. destruct (last_value k e); reflexivity.
Qed.

Lemma collect_entries (ord : list (string * string)) (acc : list Media) :
  fold_left (fun result kv => result ++ [mkMedia kv.1 kv.2]) ord acc
  = acc ++ (entry <$> ord).
Proof.
  revert acc. induction ord as [|kv ord IH]; intros acc; simpl.
  - symmetry. apply app_nil_r.
  - rewrite IH. rewrite <- app_assoc. reflexivity.
Qed.

Section Walk.

Variable order : IterationOrder.
Hypothesis order_ok : walks_every_entry_once order.
Variable M : gmap string string.

Lemma walk_elem (k v : string) : mkMedia k v ∈ entry <$> order M <-> M !! k = Some v.
Proof.
  rewrite list_elem_of_fmap. split.
  - intros ([k' v'] & Heq & Hin). unfold entry in Heq. simpl in Heq.
    injection Heq as -> ->. rewrite (order_ok M) in Hin.
    apply elem_of_map_to_list in Hin. exact Hin.
  - intros H. exists (k, v). split; [reflexivity|].
    rewrite (order_ok M). apply elem_of_map_to_list. exact H.
Qed.

Lemma walk_keys : keys (entry <$> order M) ≡ₚ (map_to_list M).*1.
Proof.
  unfold keys. rewrite <- list_fmap_compose. rewrite (order_ok M).
  assert (H : (Key ∘ entry) <$> map_to_list M = (map_to_list M).*1).
  { apply list_fmap_ext. intros i [k v] _. reflexivity. }
  rewrite H. reflexivity.
Qed.

Lemma walk_NoDup : NoDup (keys (entry <$> order M)).
Proof. rewrite walk_keys. apply NoDup_fst_map_to_list. Qed.

Lemma walk_key (k : string) : k ∈ keys (entry <$> order M) <-> is_Some (M !! k).
Proof.
  rewrite walk_keys. rewrite list_elem_of_fmap. split.
  - intros ([k' v] & -> & Hin). apply elem_of_map_to_list in Hin. eauto.
  - intros [v Hv]. exists (k, v). split; [reflexivity|].
    apply elem_of_map_to_list. exact Hv.
Qed.

Lemma walk_last_value (k : string) : last_value k (entry <$> order M) = M !! k.
Proof.
  destruct (M !! k) as [v|] eqn:E.
  - apply last_value_NoDup; [apply walk_NoDup|]. apply walk_elem. exact E.
  - apply last_value_None. rewrite walk_key, E. intros [? ?]. discriminate.
Qed.

End Walk.

(** The three ways out of [mergeMediaByKey]. *)
Lemma merge_no_update (order : IterationOrder) (e n : slice Media) :
  elems n = [] -> mergeMediaByKey order e n = e.
Proof. intros H. unfold mergeMediaByKey, len. rewrite H. reflexivity. Qed.

Lemma merge_nil_existing (order : IterationOrder) (n : slice Media) :
  elems n <> [] -> mergeMediaByKey order None n = n.
Proof.
  intros H. unfold mergeMediaByKey, len.
  destruct (elems n) eqn:E; [contradiction|]. reflexivity.
Qed.

Lemma merge_through_map (order : IterationOrder) (le : list Media) (n : slice Media) :
  elems n <> [] ->
  mergeMediaByKey order (Some le) n = Some (entry <$> order (mediaMap le (elems n))).
Proof.
  intros H. unfold mergeMediaByKey, len.
  destruct (elems n) eqn:E; [contradiction|]. simpl.
  rewrite collect_entries. reflexivity.
Qed.

Lemma last_value_elem (l : list Media) (m : Media) :
  NoDup (keys l) -> m ∈ l -> last_value (Key m) l = Some (Value m).
Proof.
  intros Hnd Hin. apply last_value_NoDup; [exact Hnd|]. rewrite media_eta. exact Hin.
Qed.

Lemma last_value_is_Some (k : string) (l : list Media) :
  is_Some (last_value k l) <-> k ∈ keys l.
Proof.
  destruct (last_value k l) as [v|] eqn:E.
  - split; [|eauto]. intros _.
    destruct (decide (k ∈ keys l)) as [H|H]; [exact H|].
    apply last_value_None in H. congruence.
  - split; [intros [? ?]; discriminate|]. intros H.
    apply last_value_None in E. contradiction.
Qed.

(** C4, amended. For lists whose keys are pairwise distinct, and whatever
    order the runtime walks the map in: the keys of the result are those of
    either list; every entry of the update is in the result; every
    existing entry whose key the update does not name is in the result; no
    key occurs twice; an empty update returns the existing list itself, a
    nil existing list returns the update's entries as they are, and an
    empty existing list returns them in some order. *)
Theorem mergeMediaByKey_merges
    (order : IterationOrder) (existingMedia newMedia : slice Media) :
  walks_every_entry_once order ->
  NoDup (keys (elems existingMedia)) ->
  NoDup (keys (elems newMedia)) ->
  let result := elems (mergeMediaByKey order existingMedia newMedia) in
  (forall k : string,
      k ∈ keys result <-> k ∈ keys (elems existingMedia) \/ k ∈ keys (elems newMedia))
  /\ (forall m : Media, m ∈ elems newMedia -> m ∈ result)
  /\ (forall m : Media,
        m ∈ elems existingMedia -> Key m ∉ keys (elems newMedia) -> m ∈ result)
  /\ NoDup (keys result)
  /\ (elems newMedia = [] -> mergeMediaByKey order existingMedia newMedia = existingMedia)
  /\ (existingMedia = None -> result = elems newMedia)
  /\ (elems existingMedia = [] -> result ≡ₚ elems newMedia).
Proof.
  intros Hord Hne Hnn result.
  destruct (elems newMedia) as [|n0 ln] eqn:En.
  { (* nothing to merge *)
    assert (Hr : result = elems existingMedia).
    { unfold result. rewrite merge_no_update by exact En. reflexivity. }
    rewrite Hr. repeat split.
    - intros H. left. exact H.
    - intros [H|H]; [exact H|]. unfold keys in H. simpl in H.
      apply elem_of_nil in H. contradiction.
    - intros m H. apply elem_of_nil in H. contradiction.
    - intros m H _. exact H.
    - exact Hne.
    - intros _. apply merge_no_update. exact En.
    - intros ->. reflexivity.
    - intros ->. reflexivity. }
  assert (Hnz : elems newMedia <> []) by (rewrite En; discriminate).
  destruct existingMedia as [le|].
  - (* both present: through the map *)
    assert (Hr : result = entry <$> order (mediaMap le (elems newMedia))).
    { unfold result. rewrite merge_through_map by exact Hnz. reflexivity. }
    rewrite <- En in *. clearbody result. subst result. simpl in Hne.
    assert (Hin : forall m, m ∈ entry <$> order (mediaMap le (elems newMedia))
                   <-> mediaMap le (elems newMedia) !! Key m = Some (Value m)).
    { intros m. rewrite <- (media_eta m) at 1. apply walk_elem. exact Hord. }
    repeat split.
    + rewrite (walk_key order Hord), mediaMap_lookup. intros Hs.
      destruct (last_value k (elems newMedia)) eqn:E1.
      * right. apply last_value_is_Some. rewrite E1. eauto.
      * left. apply last_value_is_Some. exact Hs.
    + rewrite (walk_key order Hord), mediaMap_lookup. intros [H|H].
      * apply last_value_is_Some in H.
        destruct (last_value k (elems newMedia)); [eauto|exact H].
      * apply last_value_is_Some in H. destruct H as [v ->]. eauto.
    + intros m Hm. apply Hin. rewrite mediaMap_lookup.
      rewrite (last_value_elem _ _ Hnn Hm). reflexivity.
    + intros m Hm Hk. apply Hin. rewrite mediaMap_lookup.
      apply last_value_None in Hk. rewrite Hk. apply last_value_elem; assumption.
    + apply walk_NoDup. exact Hord.
    + intros H. contradiction.
    + discriminate.
    + simpl. intros ->. apply NoDup_Permutation.
      * eapply NoDup_fmap_1. apply (walk_NoDup order Hord).
      * eapply NoDup_fmap_1. exact Hnn.
      * intros m. rewrite Hin, mediaMap_lookup. simpl.
        assert (Hm : m ∈ elems newMedia
                     <-> last_value (Key m) (elems newMedia) = Some (Value m)).
        { rewrite last_value_NoDup by exact Hnn. rewrite media_eta. reflexivity. }
        rewrite Hm. destruct (last_value (Key m) (elems newMedia)); reflexivity.
  - (* no existing list: the update as it is *)
    assert (Hr : result = elems newMedia).
    { unfold result. rewrite merge_nil_existing by exact Hnz. reflexivity. }
    rewrite <- En in *. rewrite Hr. repeat split.
    + intros H. right. exact H.
    + intros [H|H]; [|exact H]. unfold keys in H. simpl in H.
      apply elem_of_nil in H. contradiction.
    + intros m H. exact H.
    + intros m H. simpl in H. apply elem_of_nil in H. contradiction.
    + exact Hnn.
    + intros H. contradiction.
    + reflexivity.
Qed.

Lemma updateMediaField_elems (s : slice Media) (k v : string) :
  updateMediaField s k v = Some (updated (elems s) k v).
Proof.
  unfold updateMediaField, updated, append.
  destruct (list_find _ (elems s)) as [[i m]|]; reflexivity.
Qed.

Lemma updated_hit (m : Media) (l : list Media) (v : string) :
  updated (m :: l) (Key m) v = mkMedia (Key m) v :: l.
Proof.
  unfold updated. cbn [list_find]. rewrite decide_True by reflexivity. reflexivity.
Qed.

Lemma updated_miss (m : Media) (l : list Media) (k v : string) :
  Key m <> k -> updated (m :: l) k v = m :: updated l k v.
Proof.
  intros Hne. unfold updated. cbn [list_find]. rewrite decide_False by exact Hne.
  destruct (list_find _ l) as [[i x]|]; reflexivity.
Qed.

Lemma updated_idempotent (l : list Media) (k v : string) :
  updated (updated l k v) k v = updated l k v.
Proof.
  induction l as [|m l IH].
  - change (updated [] k v) with [mkMedia k v].
    apply (updated_hit (mkMedia k v) [] v).
  - destruct (decide (Key m = k)) as [<-|Hne].
    + rewrite updated_hit. apply (updated_hit (mkMedia (Key m) v) l v).
    + rewrite !updated_miss by exact Hne. rewrite IH. reflexivity.
Qed.

Lemma updateMediaField_idempotent (s : slice Media) (k v : string) :
  updateMediaField (updateMediaField s k v) k v = updateMediaField s k v.
Proof.
  rewrite !updateMediaField_elems. simpl. rewrite updated_idempotent. reflexivity.
Qed.

(** Merging what came out of the map once more with the same update
    rebuilds the same map. *)
Lemma mediaMap_again (order : IterationOrder) (le lu : list Media) :
  walks_every_entry_once order ->
  mediaMap (entry <$> order (mediaMap le lu)) lu = mediaMap le lu.
Proof.
  intros Hord. apply map_eq. intros k.
  rewrite mediaMap_lookup, (walk_last_value order Hord), mediaMap_lookup.
  destruct (last_value k lu); reflexivity.
Qed.

Lemma walk_any_order (order1 order2 : IterationOrder) (M : gmap string string) :
  walks_every_entry_once order1 -> walks_every_entry_once order2 ->
  entry <$> order2 M ≡ₚ entry <$> order1 M.
Proof. intros H1 H2. rewrite (H1 M), (H2 M). reflexivity. Qed.

(** C5, amended. [updateMediaField] applied twice with the same key and
    value equals one application, for every list. For lists whose keys are
    pairwise distinct, merging the same update a second time returns the
    entries of the first merge, in some order, with no key twice, whatever
    orders the runtime walks the map in; and merging [original -> a] with
    [compressed -> b] returns exactly these two entries, in some order. *)
Theorem media_updates_converge
    (order1 order2 : IterationOrder) (existingMedia update : slice Media) :
  walks_every_entry_once order1 ->
  walks_every_entry_once order2 ->
  NoDup (keys (elems existingMedia)) ->
  NoDup (keys (elems update)) ->
  let once := mergeMediaByKey order1 existingMedia update in
  let twice := mergeMediaByKey order2 once update in
  (forall (l : slice Media) (k v : string),
      updateMediaField (updateMediaField l k v) k v = updateMediaField l k v)
  /\ elems twice ≡ₚ elems once
  /\ NoDup (keys (elems twice))
  /\ elems (mergeMediaByKey order1 (Some [mkMedia "original" "a"])
                                   (Some [mkMedia "compressed" "b"]))
     ≡ₚ [mkMedia "original" "a"; mkMedia "compressed" "b"].
Proof.
  intros H1 H2 Hne Hnu once twice.
  split; [exact updateMediaField_idempotent|].
  assert (Hmerge : elems twice ≡ₚ elems once /\ NoDup (keys (elems twice))).
  { unfold twice, once.
    destruct (elems update) as [|u0 lu] eqn:Eu.
    - rewrite !merge_no_update by exact Eu. split; [reflexivity|exact Hne].
    - assert (Hnz : elems update <> []) by (rewrite Eu; discriminate).
      rewrite <- Eu in *. destruct existingMedia as [le|].
      + rewrite (merge_through_map order1) by exact Hnz.
        rewrite (merge_through_map order2) by exact Hnz.
        rewrite mediaMap_again by exact H1. simpl. split.
        * apply walk_any_order; assumption.
        * apply walk_NoDup. exact H2.
      + rewrite (merge_nil_existing order1) by exact Hnz.
        destruct update as [lu'|]; [|contradiction Hnz; reflexivity].
        rewrite (merge_through_map order2) by exact Hnz. simpl in *. split.
        * apply NoDup_Permutation.
          -- eapply NoDup_fmap_1. apply (walk_NoDup order2 H2).
          -- eapply NoDup_fmap_1. exact Hnu.
          -- intros m. rewrite <- (media_eta m) at 1.
             rewrite (walk_elem order2 H2), mediaMap_lookup.
             assert (Hm : m ∈ lu' <-> last_value (Key m) lu' = Some (Value m)).
             { rewrite last_value_NoDup by exact Hnu. rewrite media_eta. reflexivity. }
             rewrite Hm. destruct (last_value (Key m) lu'); reflexivity.
        * apply walk_NoDup. exact H2. }
  split; [apply Hmerge|]. split; [apply Hmerge|].
  rewrite merge_through_map by discriminate. simpl.
  apply NoDup_Permutation.
  - eapply NoDup_fmap_1. apply (walk_NoDup order1 H1).
  - apply NoDup_cons. split; [|apply NoDup_singleton].
    intros H. apply list_elem_of_singleton in H. discriminate.
  - intros m. rewrite <- (media_eta m) at 1.
    rewrite (walk_elem order1 H1), mediaMap_lookup. simpl.
    rewrite !elem_of_cons, elem_of_nil. destruct m as [k v]. simpl.
    repeat case_decide; subst; split; intros Hm; simplify_eq/=; try tauto;
      try (destruct Hm as [Hm|[Hm|[]]]; simplify_eq/=; tauto).
Qed.

(* ===================================================================== *)
(** * The properties on the sample data *)
(* ===================================================================== *)

Lemma listing_order_ok : walks_every_entry_once listing_order.
Proof. intros m. reflexivity. Qed.

Lemma reversed_order_ok : walks_every_entry_once reversed_order.
Proof. intros m. unfold reversed_order. apply reverse_Permutation. Qed.

(** The same merge under two orders the runtime may pick. *)
Lemma merge_order_follows_the_walk :
  mergeMediaByKey listing_order (Some [mkMedia "original" "a"]) (Some [mkMedia "compressed" "b"])
  = Some [mkMedia "original" "a"; mkMedia "compressed" "b"]
  /\ mergeMediaByKey reversed_order (Some [mkMedia "original" "a"])
       (Some [mkMedia "compressed" "b"])
     = Some [mkMedia "compressed" "b"; mkMedia "original" "a"].
Proof. split; vm_compute; reflexivity. Qed.

(** C4 as stated fails: without an existing list the update comes back
    as it is, and here it names one key twice. *)
Lemma merge_keeps_a_repeated_key :
  mergeMediaByKey listing_order None twice_keyed = twice_keyed
  /\ ~ NoDup (keys (elems (mergeMediaByKey listing_order None twice_keyed))).
Proof.
  split; [reflexivity|]. vm_compute. intros H.
  apply NoDup_cons in H. destruct H as [H _]. apply H. apply list_elem_of_here.
Qed.

(** An update that overwrites one key and adds another. *)
Lemma mergeMediaByKey_witness :
  NoDup (keys (elems (mergeMediaByKey listing_order
                        (Some [mkMedia "original" "a"; mkMedia "compressed" "old"])
                        (Some [mkMedia "compressed" "b"; mkMedia "hls" "c"]))))
  /\ mkMedia "compressed" "b"
       ∈ elems (mergeMediaByKey listing_order
                  (Some [mkMedia "original" "a"; mkMedia "compressed" "old"])
                  (Some [mkMedia "compressed" "b"; mkMedia "hls" "c"])).
Proof.
  pose proof (mergeMediaByKey_merges listing_order
                (Some [mkMedia "original" "a"; mkMedia "compressed" "old"])
                (Some [mkMedia "compressed" "b"; mkMedia "hls" "c"])
                listing_order_ok) as H.
  cbv zeta in H. destruct H as (_ & Hin & _ & Hnd & _).
  - apply (bool_decide_unpack _). vm_compute. exact I.
  - apply (bool_decide_unpack _). vm_compute. exact I.
  - split; [exact Hnd|]. apply Hin. apply list_elem_of_here.
Defined.

(** C5 as stated fails: the first merge returns the update with its
    repeated key, the second merge folds it into one entry. *)
Lemma remerge_of_a_repeated_key_differs :
  mergeMediaByKey listing_order None twice_keyed = twice_keyed
  /\ mergeMediaByKey listing_order (mergeMediaByKey listing_order None twice_keyed)
       twice_keyed
     = Some [mkMedia "compressed" "https://cdn/two.mp4"]
  /\ ~ (elems (mergeMediaByKey listing_order
                 (mergeMediaByKey listing_order None twice_keyed) twice_keyed)
        ≡ₚ elems (mergeMediaByKey listing_order None twice_keyed)).
Proof.
  split; [reflexivity|]. split; [vm_compute; reflexivity|].
  intros H. apply Permutation_length in H. vm_compute in H. discriminate.
Qed.

(** The example of the specification, merged twice under two different
    walks of the map. *)
Lemma media_updates_converge_witness :
  elems (mergeMediaByKey reversed_order
           (mergeMediaByKey listing_order (Some [mkMedia "original" "a"])
              (Some [mkMedia "compressed" "b"]))
           (Some [mkMedia "compressed" "b"]))
  ≡ₚ elems (mergeMediaByKey listing_order (Some [mkMedia "original" "a"])
              (Some [mkMedia "compressed" "b"])).
Proof.
  pose proof (media_updates_converge listing_order reversed_order
                (Some [mkMedia "original" "a"]) (Some [mkMedia "compressed" "b"])
                listing_order_ok reversed_order_ok) as H.
  cbv zeta in H. destruct H as (_ & H & _).
  - apply (bool_decide_unpack _). vm_compute. exact I.
  - apply (bool_decide_unpack _). vm_compute. exact I.
  - exact H.
Defined.

(** Four tasks leave one behind; two tasks leave none. *)
Lemma video_publish_failure_witness :
  processingTasks (exec (ProcessMediaForContent draft_record) (refusing_world draft_record))
    !! sample_id = Some 1
  /\ processingTasks (exec (ProcessMediaForContent video_record)
                        (refusing_world video_record))
       !! sample_id = None.
Proof.
  split.
  - pose proof (video_publish_failure_completes_three_times
                  draft_record (refusing_world draft_record)) as H.
    cbv zeta in H. destruct H as (_ & H & _); [reflexivity..|]. exact H.
  - pose proof (video_publish_failure_completes_three_times
                  video_record (refusing_world video_record)) as H.
    cbv zeta in H. destruct H as (_ & H & _); [reflexivity..|]. exact H.
Defined.

(** A successful result without the flag, then a failed one. *)
Lemma has_alpha_witness :
  exists c' : MRContent,
    documents (exec (ingest [stitched_result; failed_with_url]) alpha_world) !! sample_oid
    = Some c'
    /\ HasAlpha c' = true.
Proof.
  apply (has_alpha_is_never_cleared [stitched_result; failed_with_url] alpha_world
           sample_oid alpha_record).
  - vm_compute. reflexivity.
  - reflexivity.
Defined.

(* ===================================================================== *)
(** * Further properties of the code *)
(* ===================================================================== *)

Lemma updated_nil (k v : string) : updated [] k v = [mkMedia k v].
Proof. reflexivity. Qed.

Lemma updated_keys (l : list Media) (k v : string) :
  keys (updated l k v) = if decide (k ∈ keys l) then keys l else keys l ++ [k].
Proof.
  unfold keys. induction l as [|m l IH].
  - rewrite updated_nil. cbn [fmap list_fmap app]. case_decide as Hin; [|reflexivity].
    apply elem_of_nil in Hin. contradiction.
  - destruct (decide (Key m = k)) as [<-|Hne].
    + rewrite updated_hit. cbn [fmap list_fmap Key].
      rewrite decide_True by apply list_elem_of_here. reflexivity.
    + rewrite updated_miss by exact Hne. cbn [fmap list_fmap]. cbn [fmap] in IH. rewrite IH.
      destruct (decide (k ∈ Key <$> l)) as [Hin|Hin].
      * rewrite decide_True by (apply list_elem_of_further; exact Hin). reflexivity.
      * rewrite decide_False; [reflexivity|].
        rewrite elem_of_cons. intros [->|H]; [apply Hne; reflexivity|contradiction].
Qed.

Lemma updated_others (l : list Media) (k v : string) :
  filter (fun m => Key m <> k) (updated l k v) = filter (fun m => Key m <> k) l.
Proof.
  induction l as [|m l IH].
  - rewrite updated_nil. rewrite filter_cons_False; [reflexivity|]. simpl. intros H. apply H. reflexivity.
  - destruct (decide (Key m = k)) as [<-|Hne].
    + rewrite updated_hit. rewrite !filter_cons_False; [reflexivity| |]; simpl; intros H; apply H; reflexivity.
    + rewrite updated_miss by exact Hne. rewrite !filter_cons_True by exact Hne.
      rewrite IH. reflexivity.
Qed.

Lemma updated_first (l : list Media) (k v : string) :
  exists i, list_find (fun m => Key m = k) (updated l k v) = Some (i, mkMedia k v).
Proof.
  induction l as [|m l IH].
  - exists 0%nat. rewrite updated_nil. cbn [list_find]. simpl.
    rewrite decide_True by reflexivity. reflexivity.
  - destruct (decide (Key m = k)) as [<-|Hne].
    + exists 0%nat. rewrite updated_hit. cbn [list_find]. simpl.
      rewrite decide_True by reflexivity. reflexivity.
    + destruct IH as [i Hi]. exists (S i). rewrite updated_miss by exact Hne.
      cbn [list_find]. rewrite decide_False by exact Hne. rewrite Hi. reflexivity.
Qed.

Lemma updated_NoDup (l : list Media) (k v : string) :
  NoDup (keys l) -> NoDup (keys (updated l k v)).
Proof.
  intros Hnd. rewrite updated_keys. destruct (decide (k ∈ keys l)) as [Hin|Hin]; [exact Hnd|].
  apply NoDup_app. split; [exact Hnd|]. split; [|apply NoDup_singleton].
  intros x Hx Hx'. apply list_elem_of_singleton in Hx'. subst x. contradiction.
Qed.

(** X1. [updateMediaField] never returns nil; in its result the first
    entry under the key holds the new value; the entries under every
    other key are the same, in the same order; the key is appended exactly
    when it was absent; and keys that were pairwise distinct stay so. *)
Theorem updateMediaField_sets_one_key (s : slice Media) (k v : string) :
  let r := elems (updateMediaField s k v) in
  updateMediaField s k v <> None
  /\ (exists i, list_find (fun m => Key m = k) r = Some (i, mkMedia k v))
  /\ filter (fun m => Key m <> k) r = filter (fun m => Key m <> k) (elems s)
  /\ keys r = (if decide (k ∈ keys (elems s)) then keys (elems s)
               else keys (elems s) ++ [k])
  /\ (NoDup (keys (elems s)) -> NoDup (keys r)).
Proof.
  intros r. unfold r. rewrite updateMediaField_elems. simpl.
  split; [discriminate|]. split; [apply updated_first|].
  split; [apply updated_others|]. split; [apply updated_keys|apply updated_NoDup].
Qed.

Lemma updated_commute_perm (l : list Media) (k1 v1 k2 v2 : string) :
  k1 <> k2 ->
  updated (updated l k1 v1) k2 v2 ≡ₚ updated (updated l k2 v2) k1 v1.
Proof.
  intros Hne. induction l as [|m l IH].
  - rewrite !updated_nil.
    rewrite (updated_miss (mkMedia k1 v1) [] k2 v2) by exact Hne.
    rewrite (updated_miss (mkMedia k2 v2) [] k1 v1) by (intros H; apply Hne; symmetry; exact H).
    rewrite !updated_nil. apply Permutation_swap.
  - destruct (decide (Key m = k1)) as [E1|E1]; [|destruct (decide (Key m = k2)) as [E2|E2]].
    + subst k1. rewrite updated_hit.
      rewrite (updated_miss m l k2 v2) by exact Hne.
      rewrite (updated_miss (mkMedia (Key m) v1) l k2 v2) by exact Hne.
      rewrite updated_hit. reflexivity.
    + subst k2. rewrite updated_hit.
      rewrite (updated_miss m l k1 v1) by exact E1.
      rewrite (updated_miss (mkMedia (Key m) v2) l k1 v1) by exact E1.
      rewrite updated_hit. reflexivity.
    + rewrite (updated_miss m l k1 v1) by exact E1.
      rewrite (updated_miss m l k2 v2) by exact E2.
      rewrite (updated_miss m _ k2 v2) by exact E2.
      rewrite (updated_miss m _ k1 v1) by exact E1.
      rewrite IH. reflexivity.
Qed.

Lemma updated_commute_eq (l : list Media) (k1 v1 k2 v2 : string) :
  k1 <> k2 -> k1 ∈ keys l -> k2 ∈ keys l ->
  updated (updated l k1 v1) k2 v2 = updated (updated l k2 v2) k1 v1.
Proof.
  intros Hne. unfold keys. induction l as [|m l IH]; intros H1 H2.
  - apply elem_of_nil in H1. contradiction.
  - destruct (decide (Key m = k1)) as [E1|E1]; [|destruct (decide (Key m = k2)) as [E2|E2]].
    + subst k1. rewrite updated_hit.
      rewrite (updated_miss m l k2 v2) by exact Hne.
      rewrite (updated_miss (mkMedia (Key m) v1) l k2 v2) by exact Hne.
      rewrite updated_hit. reflexivity.
    + subst k2. rewrite updated_hit.
      rewrite (updated_miss m l k1 v1) by exact E1.
      rewrite (updated_miss (mkMedia (Key m) v2) l k1 v1) by exact E1.
      rewrite updated_hit. reflexivity.
    + rewrite (updated_miss m l k1 v1) by exact E1.
      rewrite (updated_miss m l k2 v2) by exact E2.
      rewrite (updated_miss m _ k2 v2) by exact E2.
      rewrite (updated_miss m _ k1 v1) by exact E1.
      simpl in H1, H2. rewrite elem_of_cons in H1, H2.
      destruct H1 as [H1|H1]; [congruence|]. destruct H2 as [H2|H2]; [congruence|].
      rewrite IH by assumption. reflexivity.
Qed.

(** X2. Two updates under different keys give the same entries in
    either order, and the very same list when both keys were already
    there. *)
Theorem updateMediaField_order_of_keys (s : slice Media) (k1 v1 k2 v2 : string) :
  k1 <> k2 ->
  elems (updateMediaField (updateMediaField s k1 v1) k2 v2)
  ≡ₚ elems (updateMediaField (updateMediaField s k2 v2) k1 v1)
  /\ (k1 ∈ keys (elems s) -> k2 ∈ keys (elems s) ->
      updateMediaField (updateMediaField s k1 v1) k2 v2
      = updateMediaField (updateMediaField s k2 v2) k1 v1).
Proof.
  intros Hne. rewrite !updateMediaField_elems. simpl. split.
  - apply updated_commute_perm. exact Hne.
  - intros H1 H2. f_equal. apply updated_commute_eq; assumption.
Qed.

(** The two streaming URLs of one result, written in either order. *)
Lemma updateMediaField_order_witness :
  elems (updateMediaField (updateMediaField None "hls" "h.m3u8") "dash" "d.mpd")
  ≡ₚ elems (updateMediaField (updateMediaField None "dash" "d.mpd") "hls" "h.m3u8").
Proof.
  apply (updateMediaField_order_of_keys None "hls" "h.m3u8" "dash" "d.mpd"). discriminate.
Defined.

Lemma processMediaResult_steps (r : MediaProcessResult) (w : World) :
  match returned (processMediaResult r) w with
  | Err _ =>
      processingTasks (exec (processMediaResult r) w) = processingTasks w
      /\ documents (exec (processMediaResult r) w) = documents w
  | Ok _ =>
      lacks_required_fields r = false
      /\ exists wmid, update_step r w wmid
           /\ exec (processMediaResult r) w
              = exec (TrackProcessingComplete (ContentID r)) wmid
  end.
Proof.
  unfold processMediaResult. fold (lacks_required_fields r).
  destruct (lacks_required_fields r) eqn:Hl; [simpl; split; reflexivity|].
  destruct (Success r) eqn:Hs; simpl.
  2:{ split; [reflexivity|]. exists w. split; [|reflexivity].
      unfold update_step. repeat split. left. reflexivity. }
  destruct w as [tasks docs faults now down pf pub].
  unfold returned, exec, bind, wrapped, lift, FindOne, UpdateOne, db_call, time_Now, gets,
    logged, ret, set_db_faults, set_documents. simpl.
  destruct (ObjectIDFromHex (ContentID r)) as [oid|e] eqn:Hid; simpl; [|split; reflexivity].
  unfold update_step.
  destruct faults as [|[] [|[] fs]]; simpl;
    try (split; reflexivity);
    destruct (docs !! oid) as [c|] eqn:Hc; simpl; try (split; reflexivity).
  all: try rewrite Hc; simpl.
  all: split; [reflexivity|]; eexists; split; [|reflexivity]; simpl.
  all: split; [reflexivity|]; split; [reflexivity|].
  all: right; exists oid, c; repeat split; assumption.
Qed.

(** X3. When [processMediaResult] returns an error, neither the table
    nor any record has changed; when it returns nil, the table is the one
    [TrackProcessingComplete] leaves. This holds under every pattern of
    database failures. *)
Theorem processMediaResult_counts_unless_error (r : MediaProcessResult) (w : World) :
  let w' := exec (processMediaResult r) w in
  match returned (processMediaResult r) w with
  | Err _ => processingTasks w' = processingTasks w /\ documents w' = documents w
  | Ok _ =>
      processingTasks w'
      = processingTasks (exec (TrackProcessingComplete (ContentID r)) w)
  end.
Proof.
  intros w'. unfold w'. pose proof (processMediaResult_steps r w) as H.
  destruct (returned (processMediaResult r) w) as [[]|e]; [|exact H].
  destruct H as (_ & wmid & (Ht & _ & _) & ->).
  rewrite !complete_tasks, Ht. reflexivity.
Qed.

Lemma entries_kept_refl (s : slice Media) : entries_kept s s.
Proof. split; auto. Qed.

Lemma entries_kept_trans (s1 s2 s3 : slice Media) :
  entries_kept s1 s2 -> entries_kept s2 s3 -> entries_kept s1 s3.
Proof. intros [A1 B1] [A2 B2]. split; auto. Qed.

Lemma entries_kept_update (s : slice Media) (k v : string) :
  k ∈ produced_keys -> entries_kept s (updateMediaField s k v).
Proof.
  intros Hk. unfold entries_kept. rewrite updateMediaField_elems. cbn [elems]. split.
  - intros k' Hk'. rewrite updated_keys. case_decide; [exact Hk'|].
    apply elem_of_app. left. exact Hk'.
  - intros m Hm Hp. assert (Hne : Key m <> k) by (intros E; rewrite E in Hp; contradiction).
    assert (H : m ∈ filter (fun m => Key m <> k) (updated (elems s) k v)).
    { rewrite updated_others. apply list_elem_of_filter. split; assumption. }
    apply list_elem_of_filter in H. apply H.
Qed.

Lemma record_kept_refl (c : MRContent) : record_kept c c.
Proof. unfold record_kept. repeat split; auto. Qed.

Lemma record_kept_trans (c1 c2 c3 : MRContent) :
  record_kept c1 c2 -> record_kept c2 c3 -> record_kept c1 c3.
Proof.
  unfold record_kept.
  intros (A1 & B1 & C1 & D1 & E1 & F1 & G1 & H1 & I1 & J1 & K1)
         (A2 & B2 & C2 & D2 & E2 & F2 & G2 & H2 & I2 & J2 & K2).
  repeat split; try congruence; eauto using entries_kept_trans;
   try (eapply entries_kept_trans; eauto).
  all: first [apply I1|apply J1|apply K1|idtac]; auto.
  all: try (intros; first [apply I2, I1|apply J2, J1|apply K2, K1]; auto).
Qed.

Lemma records_kept_refl (w : World) : records_kept w w.
Proof.
  intros oid. destruct (documents w !! oid) as [c|] eqn:E; [|reflexivity].
  exists c. split; [reflexivity|apply record_kept_refl].
Qed.

Lemma records_kept_trans (w1 w2 w3 : World) :
  records_kept w1 w2 -> records_kept w2 w3 -> records_kept w1 w3.
Proof.
  intros H12 H23 oid. specialize (H12 oid). specialize (H23 oid).
  destruct (documents w1 !! oid) as [c1|].
  - destruct H12 as (c2 & E2 & K12). rewrite E2 in H23.
    destruct H23 as (c3 & E3 & K23). exists c3. split; [exact E3|].
    eapply record_kept_trans; eassumption.
  - rewrite H12 in H23. exact H23.
Qed.

Lemma records_kept_same (w w' : World) : documents w' = documents w -> records_kept w w'.
Proof.
  intros E oid. rewrite E. destruct (documents w !! oid) as [c|]; [|reflexivity].
  exists c. split; [reflexivity|apply record_kept_refl].
Qed.

Lemma records_kept_insert (w w' : World) (oid : ObjectID) (c c' : MRContent) :
  documents w !! oid = Some c -> record_kept c c' ->
  documents w' = <[oid := c']> (documents w) -> records_kept w w'.
Proof.
  intros Hc Hk E o. rewrite E. destruct (decide (oid = o)) as [<-|Hne].
  - rewrite Hc, lookup_insert_eq. exists c'. split; [reflexivity|exact Hk].
  - rewrite lookup_insert_ne by exact Hne.
    destruct (documents w !! o) as [c0|]; [|reflexivity].
    exists c0. split; [reflexivity|apply record_kept_refl].
Qed.

Lemma produced_key (k : string) :
  k = "compressed" \/ k = "hls" \/ k = "dash" \/ k = "alpha" \/ k = "stitched"
  \/ k = "processed" -> k ∈ produced_keys.
Proof.
  unfold produced_keys. rewrite !elem_of_cons. intros H; tauto.
Qed.

Lemma build_updateOps_kept (r : MediaProcessResult) (c : MRContent) (now : Time) :
  record_kept c (apply_set (build_updateOps r c now) c).
Proof.
  unfold record_kept, apply_set. cbn [ID OrganizationID UserID Name RefID RenderType
    IsActive CreatedAt Images Videos Objects_3D].
  do 8 (split; [reflexivity|]).
  unfold build_updateOps, media_updates.
  repeat case_match; cbn; repeat split;
    try apply entries_kept_refl;
    try (apply entries_kept_update; apply produced_key; tauto);
    try (eapply entries_kept_trans; apply entries_kept_update; apply produced_key; tauto).
Qed.

Lemma status_update_kept (s : string) (now : Time) (c : MRContent) :
  record_kept c (apply_set (status_update s now) c).
Proof. unfold record_kept. cbn. repeat split; auto. Qed.

Lemma status_step_kept (from to id : string) (w w' : World) :
  status_step from to id w w' -> records_kept w w'.
Proof.
  intros [E|(oid & c & _ & Hc & _ & E)].
  - apply records_kept_same. exact E.
  - eapply records_kept_insert; [exact Hc|apply status_update_kept|exact E].
Qed.

Lemma update_step_kept (r : MediaProcessResult) (w wmid : World) :
  update_step r w wmid -> records_kept w wmid.
Proof.
  intros (_ & _ & [E|(oid & c & _ & Hc & E)]).
  - apply records_kept_same. exact E.
  - eapply records_kept_insert; [exact Hc|apply build_updateOps_kept|exact E].
Qed.

Lemma processMediaResult_kept (r : MediaProcessResult) :
  keeps records_kept (processMediaResult r).
Proof.
  intros w. pose proof (processMediaResult_steps r w) as H.
  destruct (returned (processMediaResult r) w) as [[]|e].
  - destruct H as (_ & wmid & Hu & ->).
    eapply records_kept_trans; [apply (update_step_kept r); exact Hu|].
    eapply status_step_kept. apply complete_documents.
  - apply records_kept_same. apply H.
Qed.

(** X4. Whatever results are ingested, under every pattern of database
    failures: no record appears or disappears; no record changes its id,
    organization, user, name, reference id, render type, active flag or
    creation time; every key of every media list is still there; and an
    entry whose key is not one of [compressed], [hls], [dash], [alpha],
    [stitched], [processed] is still there unchanged. *)
Theorem ingest_keeps_records_and_entries (results : list MediaProcessResult) (w : World) :
  records_kept w (exec (ingest results) w).
Proof.
  revert w. change (keeps records_kept (ingest results)). unfold ingest.
  apply (keeps_for_each records_kept records_kept_refl records_kept_trans).
  intros r. apply keeps_logged. apply processMediaResult_kept.
Qed.

(** ** The status query *)

Lemma GetProcessingStatus_tracked (id : string) (n : Z) (w : World) :
  processingTasks w !! id = Some n ->
  GetProcessingStatus id w = (Ok ("processing", n), w).
Proof.
  intros H. unfold GetProcessingStatus, bind, gets. cbn. rewrite H. reflexivity.
Qed.

Lemma GetProcessingStatus_settled (id : string) (oid : ObjectID) (c : MRContent) (w : World) :
  processingTasks w !! id = None -> db_faults w = [] ->
  ObjectIDFromHex id = Ok oid -> documents w !! oid = Some c ->
  GetProcessingStatus id w = (Ok (Status c, 0), w).
Proof.
  intros H Hf Hid Hc. destruct w as [tasks docs faults now down pf pub]. simpl in *.
  subst faults. go_unfold. simpl. rewrite H, Hid. simpl. rewrite Hc. reflexivity.
Qed.

(** The world after a start on a draft record and [n] completions, the
    database answering. *)
Lemma lifecycle_end (id : string) (oid : ObjectID) (n : Z) (c : MRContent) (w : World) :
  0 < n <= max_int -> ObjectIDFromHex id = Ok oid ->
  documents w !! oid = Some c -> Status c = "draft" -> db_faults w = [] ->
  exec (completions (Z.to_nat n) id) (exec (TrackProcessingStart id n) w)
  = set_documents
      (insert oid (apply_set (status_update "processed" (clock w))
                     (apply_set (status_update "processing" (clock w)) c)))
      (set_processingTasks (delete id) w).
Proof.
  intros Hn Hid Hc Hs Hf.
  unfold exec at 2. rewrite (start_draft id oid n c w) by (assumption || lia). cbn [snd].
  set (started := set_documents _ (set_processingTasks _ w)).
  assert (Htasks : processingTasks started !! id = Some n) by apply lookup_insert_eq.
  assert (Hsplit : Z.to_nat n = (Z.to_nat (n - 1) + 1)%nat) by lia.
  unfold exec, completions. rewrite Hsplit, times_app.
  fold (completions (Z.to_nat (n - 1)) id).
  rewrite (completions_pending id _ n started Htasks) by lia.
  cbn [times]. unfold bind.
  erewrite complete_last.
  - unfold ret. cbn [snd]. unfold started, set_documents, set_processingTasks. simpl.
    f_equal.
    + rewrite delete_insert_eq. rewrite delete_insert_eq. reflexivity.
    + rewrite insert_insert_eq. reflexivity.
  - exact Hf.
  - simpl. apply lookup_insert_eq.
  - rewrite int_decr_pos by lia. lia.
  - exact Hid.
  - simpl. apply lookup_insert_eq.
  - reflexivity.
Qed.

(** X5. After a start with [n] on a draft record, the database
    answering, the query reports [processing] with [n - k] after [k < n]
    completions and [processed] with 0 after [n], and changes nothing. *)
Theorem GetProcessingStatus_follows_the_tracker
    (id : string) (oid : ObjectID) (n : Z) (c : MRContent) (w : World) :
  0 < n <= max_int ->
  ObjectIDFromHex id = Ok oid ->
  documents w !! oid = Some c ->
  Status c = "draft" ->
  db_faults w = [] ->
  let started := exec (TrackProcessingStart id n) w in
  (forall k : nat, Z.of_nat k < n ->
     GetProcessingStatus id (exec (completions k id) started)
     = (Ok ("processing", n - Z.of_nat k), exec (completions k id) started))
  /\ GetProcessingStatus id (exec (completions (Z.to_nat n) id) started)
     = (Ok ("processed", 0), exec (completions (Z.to_nat n) id) started).
Proof.
  intros Hn Hid Hc Hs Hf started. split.
  - intros k Hk. apply GetProcessingStatus_tracked.
    assert (Htasks : processingTasks started !! id = Some n).
    { unfold started. rewrite start_tasks by lia. apply lookup_insert_eq. }
    unfold exec at 1. rewrite (completions_pending id k n started Htasks) by lia.
    simpl. apply lookup_insert_eq.
  - unfold started. rewrite (lifecycle_end id oid n c w) by assumption.
    apply (GetProcessingStatus_settled id oid
             (apply_set (status_update "processed" (clock w))
                (apply_set (status_update "processing" (clock w)) c))).
    + simpl. apply lookup_delete_eq.
    + exact Hf.
    + exact Hid.
    + simpl. apply lookup_insert_eq.
Qed.

(** Three tasks on the sample record, all completed. *)
Lemma GetProcessingStatus_witness :
  returned (GetProcessingStatus sample_id)
    (exec (completions 3 sample_id) (exec (TrackProcessingStart sample_id 3) quiet_world))
  = Ok ("processed", 0).
Proof.
  pose proof (GetProcessingStatus_follows_the_tracker
                sample_id sample_oid 3 draft_record quiet_world) as H.
  cbv zeta in H. destruct H as (_ & H).
  - unfold max_int. lia.
  - reflexivity.
  - vm_compute. reflexivity.
  - reflexivity.
  - reflexivity.
  - unfold returned. change (Z.to_nat 3) with 3%nat in H. rewrite H. reflexivity.
Defined.

(** X6. Right after a start with a positive count the query answers
    [processing] with that count without reading the store, whatever the
    persisted status, the id or the state of the database. *)
Theorem GetProcessingStatus_trusts_the_table (id : string) (n : Z) (w : World) :
  0 < n ->
  returned (GetProcessingStatus id) (exec (TrackProcessingStart id n) w)
  = Ok ("processing", n)
  /\ exec (GetProcessingStatus id) (exec (TrackProcessingStart id n) w)
     = exec (TrackProcessingStart id n) w.
Proof.
  intros Hn.
  assert (H : processingTasks (exec (TrackProcessingStart id n) w) !! id = Some n).
  { rewrite start_tasks by exact Hn. apply lookup_insert_eq. }
  pose proof (GetProcessingStatus_tracked id n _ H) as E.
  split.
  - unfold returned. rewrite E. reflexivity.
  - unfold exec at 1. rewrite E. reflexivity.
Qed.

(** An id that is no ObjectID at all. *)
Lemma GetProcessingStatus_trusts_witness :
  returned (GetProcessingStatus "not-an-object-id")
    (exec (TrackProcessingStart "not-an-object-id" 5) quiet_world)
  = Ok ("processing", 5).
Proof.
  apply (GetProcessingStatus_trusts_the_table "not-an-object-id" 5 quiet_world). lia.
Defined.

(** ** Dispatch on a record without work, or without a bus *)

Lemma count_loop_none (p : Media -> bool) (l : list Media) (n : Z) :
  existsb p l = false -> fold_left (count_if p) l n = n.
Proof.
  revert n. induction l as [|m l IH]; intros n H; [reflexivity|].
  cbn [existsb] in H. apply orb_false_iff in H. destruct H as [Hm Hl].
  cbn [fold_left]. unfold count_if at 2. rewrite Hm. apply IH. exact Hl.
Qed.

Lemma CountMediaTasks_no_originals (c : MRContent) :
  existsb is_original (elems (Images c)) = false ->
  existsb is_original (elems (Videos c)) = false ->
  CountMediaTasks c = 0.
Proof.
  intros Hi Hv. unfold CountMediaTasks. rewrite video_loop.
  rewrite !(count_loop_none is_original) by assumption. reflexivity.
Qed.

(** X7. Without a bus connection, or for a record with no original image
    and no original video, [ProcessMediaForContent] registers no count,
    publishes nothing and changes no status: the world is as before. *)
Theorem ProcessMediaForContent_without_work (c : MRContent) (w : World) :
  nats_down w = true
  \/ (existsb is_original (elems (Images c)) = false
      /\ existsb is_original (elems (Videos c)) = false) ->
  ProcessMediaForContent c w = (Ok tt, w).
Proof.
  intros [Hd|[Hi Hv]]; unfold ProcessMediaForContent, or_return, GetNATS.
  - rewrite Hd. reflexivity.
  - destruct (nats_down w); [reflexivity|].
    rewrite (CountMediaTasks_no_originals c Hi Hv). reflexivity.
Qed.

(** Outputs, an original video without URL and a 3D original. *)
Lemma ProcessMediaForContent_without_work_witness :
  ProcessMediaForContent outputs_only_record quiet_world = (Ok tt, quiet_world).
Proof.
  apply (ProcessMediaForContent_without_work outputs_only_record quiet_world).
  right. split; reflexivity.
Defined.

(** ** What reaches the bus *)

Lemma start_published (id : string) (n : Z) (w : World) :
  published (exec (TrackProcessingStart id n) w) = published w.
Proof.
  destruct w as [tasks docs faults now down pf pub]. go_unfold.
  repeat (case_match; simpl in *; simplify_eq/=); reflexivity.
Qed.

Lemma publishToNATS_accepted (req : TranscodeRequest) (subject : string) (w : World) :
  publish_fails w subject req = false ->
  publishToNATS req subject w = (Ok tt, add_published (subject, req) w).
Proof. intros H. unfold publishToNATS. rewrite H. reflexivity. Qed.

Lemma is_original_value (m : Media) : is_original m = true -> is_empty (Value m) = false.
Proof.
  unfold is_original, non_empty. intros H. apply andb_true_iff in H.
  destruct H as [_ H]. apply negb_true_iff in H. exact H.
Qed.

Lemma send_images_accepted (c : MRContent) (id org : string) (w : World) :
  bus_accepts_all w ->
  published (exec (send_images c id org) w)
  = published w
    ++ ((fun img => ("compressimage", image_request id org img))
          <$> List.filter is_original (elems (Images c))).
Proof.
  unfold send_images. revert w.
  induction (elems (Images c)) as [|img l IH]; intros w Hb.
  - simpl. symmetry. apply app_nil_r.
  - cbn [for_each List.filter].
    assert (Hok : always_ok (if is_original img
                             then processImage (image_request id org img) else ret tt)).
    { destruct (is_original img); [apply processImage_ok|intros ?; reflexivity]. }
    rewrite exec_bind_ok by exact Hok.
    destruct (is_original img) eqn:E.
    + set (w1 := exec (processImage (image_request id org img)) w).
      assert (Hw1 : w1 = add_published ("compressimage", image_request id org img) w).
      { unfold w1, exec, processImage. cbn [ImageURL image_request].
        rewrite (is_original_value img E). unfold or_return.
        rewrite publishToNATS_accepted by apply Hb. reflexivity. }
      rewrite IH.
      * rewrite Hw1. cbn [published add_published fmap list_fmap].
        rewrite <- app_assoc. reflexivity.
      * rewrite Hw1. exact Hb.
    + apply IH. exact Hb.
Qed.

(** X8. With the bus connected and accepting, a record with work gets
    its count registered and exactly these messages published after the
    earlier ones: one [compressimage] per original image, in list order,
    then one [createexperience] when there is an original video. *)
Theorem ProcessMediaForContent_publishes (c : MRContent) (w : World) :
  nats_down w = false ->
  0 < CountMediaTasks c ->
  bus_accepts_all w ->
  let w' := exec (ProcessMediaForContent c) w in
  published w' = published w ++ expected_messages c
  /\ processingTasks w' = <[Hex (ID c) := CountMediaTasks c]> (processingTasks w).
Proof.
  intros Hn Hpos Hb w'. unfold w'.
  rewrite ProcessMediaForContent_dispatches by assumption.
  set (id := Hex (ID c)). set (org := Hex (OrganizationID c)).
  set (w1 := exec (TrackProcessingStart id (CountMediaTasks c)) w).
  assert (Hb1 : bus_accepts_all w1).
  { intros s q. unfold w1. rewrite start_publish_fails. apply Hb. }
  unfold queue_media. fold org.
  rewrite exec_bind_ok by apply send_images_ok.
  set (w2 := exec (send_images c id org) w1).
  pose proof (send_images_same_state c id org w1) as (Ht2 & _ & _ & _ & _ & Hpf2).
  fold w2 in Ht2, Hpf2.
  assert (Hp2 : published w2 = published w ++
            ((fun img => ("compressimage", image_request id org img))
               <$> List.filter is_original (elems (Images c)))).
  { unfold w2. rewrite send_images_accepted by exact Hb1.
    unfold w1. rewrite start_published. reflexivity. }
  assert (Ht1 : processingTasks w1 = <[id := CountMediaTasks c]> (processingTasks w)).
  { unfold w1. apply start_tasks. exact Hpos. }
  unfold expected_messages. fold id org.
  unfold send_video. rewrite first_value_original.
  destruct (existsb is_original (elems (Videos c))) eqn:Ev.
  - unfold exec. unfold bind, on_error.
    rewrite publishToNATS_accepted by (rewrite Hpf2; apply Hb1).
    rewrite scan_objects_noop. cbn [snd published processingTasks add_published].
    rewrite Hp2, Ht2, Ht1. rewrite <- app_assoc. split; reflexivity.
  - unfold exec. unfold bind, ret. rewrite scan_objects_noop. cbn [snd].
    rewrite Hp2, Ht2, Ht1, app_nil_r. split; reflexivity.
Qed.

(** The sample record: four tasks counted, two messages sent. *)
Lemma ProcessMediaForContent_publishes_witness :
  length (published (exec (ProcessMediaForContent draft_record) quiet_world)) = 2%nat
  /\ CountMediaTasks draft_record = 4.
Proof.
  pose proof (ProcessMediaForContent_publishes draft_record quiet_world) as H.
  cbv zeta in H. destruct H as (H & _).
  - reflexivity.
  - reflexivity.
  - intros s q. reflexivity.
  - rewrite H. split; reflexivity.
Defined.

(** ** Counts in the table stay outstanding *)

Lemma stays_outstanding_refl (w : World) : stays_outstanding w w.
Proof. intros H. exact H. Qed.

Lemma stays_outstanding_trans (w1 w2 w3 : World) :
  stays_outstanding w1 w2 -> stays_outstanding w2 w3 -> stays_outstanding w1 w3.
Proof. intros H12 H23 H. apply H23, H12, H. Qed.

Lemma stays_outstanding_same (w w' : World) :
  processingTasks w' = processingTasks w -> stays_outstanding w w'.
Proof. intros E H id n. rewrite E. apply H. Qed.

Lemma TrackProcessingStart_outstanding (id : string) (n : Z) :
  is_int n -> keeps stays_outstanding (TrackProcessingStart id n).
Proof.
  intros Hint w H. destruct (Z_le_gt_dec n 0) as [Hle|Hgt].
  - unfold exec. rewrite start_skipped by exact Hle. exact H.
  - intros id' n'. rewrite start_tasks by lia.
    destruct (decide (id = id')) as [<-|Hne].
    + rewrite lookup_insert_eq. intros [= <-]. unfold is_int in Hint. lia.
    + rewrite lookup_insert_ne by exact Hne. apply H.
Qed.

Lemma TrackProcessingComplete_outstanding (id : string) :
  keeps stays_outstanding (TrackProcessingComplete id).
Proof.
  intros w H id' n'. rewrite complete_tasks.
  destruct (processingTasks w !! id) as [m|] eqn:Hm; [|apply H].
  pose proof (H id m Hm) as Hr. rewrite int_decr_pos by exact Hr.
  destruct (m - 1 <=? 0) eqn:E.
  - destruct (decide (id = id')) as [<-|Hne].
    + rewrite lookup_delete_eq. discriminate.
    + rewrite lookup_delete_ne by exact Hne. apply H.
  - apply Z.leb_gt in E. destruct (decide (id = id')) as [<-|Hne].
    + rewrite lookup_insert_eq. intros [= <-]. lia.
    + rewrite lookup_insert_ne by exact Hne. apply H.
Qed.

Lemma processMediaResult_outstanding (r : MediaProcessResult) :
  keeps stays_outstanding (processMediaResult r).
Proof.
  intros w. pose proof (processMediaResult_steps r w) as H.
  destruct (returned (processMediaResult r) w) as [[]|e].
  - destruct H as (_ & wmid & (Ht & _) & ->).
    eapply stays_outstanding_trans;
      [apply (stays_outstanding_same w wmid Ht)|apply TrackProcessingComplete_outstanding].
  - apply stays_outstanding_same. apply H.
Qed.

Lemma queue_media_outstanding (c : MRContent) (id : string) :
  keeps stays_outstanding (queue_media c id).
Proof.
  unfold queue_media.
  apply (keeps_bind _ stays_outstanding_trans).
  { intros w. apply stays_outstanding_same. apply send_images_same_state. }
  intros _. apply (keeps_bind _ stays_outstanding_trans).
  - unfold send_video. case_match; [|apply (keeps_ret _ stays_outstanding_refl)].
    apply (keeps_on_error _ stays_outstanding_trans).
    + intros w. apply stays_outstanding_same. apply publishToNATS_same_state.
    + apply (keeps_times _ stays_outstanding_refl stays_outstanding_trans).
      apply keeps_logged. apply TrackProcessingComplete_outstanding.
  - intros _ w. unfold exec. rewrite scan_objects_noop. apply stays_outstanding_refl.
Qed.

Lemma ProcessMediaForContent_outstanding (c : MRContent) :
  keeps stays_outstanding (ProcessMediaForContent c).
Proof.
  unfold ProcessMediaForContent.
  apply (keeps_or_return _ stays_outstanding_trans).
  { intros w. unfold exec, GetNATS. destruct (nats_down w); apply stays_outstanding_refl. }
  intros _. case_match; [apply (keeps_ret _ stays_outstanding_refl)|].
  apply (keeps_bind _ stays_outstanding_trans).
  - apply keeps_logged. apply TrackProcessingStart_outstanding.
    apply CountMediaTasks_is_int.
  - intros _. apply queue_media_outstanding.
Qed.

(** X9. If every count in the table is positive and fits an [int], this
    is still so after a start with any [int], after a completion, after
    ingesting any results and after dispatching any record. *)
Theorem tracker_counts_stay_outstanding (w : World) :
  counts_outstanding w ->
  (forall (id : string) (n : Z), is_int n ->
     counts_outstanding (exec (TrackProcessingStart id n) w))
  /\ (forall id : string, counts_outstanding (exec (TrackProcessingComplete id) w))
  /\ (forall results : list MediaProcessResult,
        counts_outstanding (exec (ingest results) w))
  /\ (forall c : MRContent, counts_outstanding (exec (ProcessMediaForContent c) w)).
Proof.
  intros H. split; [|split; [|split]].
  - intros id n Hn. apply (TrackProcessingStart_outstanding id n Hn w H).
  - intros id. apply (TrackProcessingComplete_outstanding id w H).
  - intros results. revert H. change (stays_outstanding w (exec (ingest results) w)).
    revert w. change (keeps stays_outstanding (ingest results)). unfold ingest.
    apply (keeps_for_each _ stays_outstanding_refl stays_outstanding_trans).
    intros r. apply keeps_logged. apply processMediaResult_outstanding.
  - intros c. apply (ProcessMediaForContent_outstanding c w H).
Qed.

(** Two results ingested with two tasks outstanding. *)
Lemma tracker_counts_witness :
  counts_outstanding
    (exec (ingest [stitched_result; failed_with_url]) tracking_world).
Proof.
  apply (tracker_counts_stay_outstanding tracking_world).
  intros id n. unfold tracking_world. cbn [processingTasks].
  intros H. apply lookup_singleton_Some in H. destruct H as [_ <-].
  unfold max_int. lia.
Defined.

(** ** The callback's answer *)


(** ** The flattened response *)

Lemma append_inj (p a b : string) : String.append p a = String.append p b -> a = b.
Proof.
  induction p as [|c p IH]; simpl; intros H; [exact H|].
  injection H as H. apply IH. exact H.
Qed.

Lemma flatten_lookup (p : string) (l : list Media) (m : gmap string JSONValue) (k : string) :
  fold_left (flatten p) l m !! String.append p k
  = match last_value k l with
    | Some v => Some (JString v)
    | None => m !! String.append p k
    end.
Proof.
  revert m. induction l as [|x l IH]; intros m; [reflexivity|].
  cbn [fold_left last_value]. rewrite IH.
  destruct (last_value k l) as [v|]; [reflexivity|].
  unfold flatten. destruct (decide (Key x = k)) as [<-|E].
  - apply lookup_insert_eq.
  - apply lookup_insert_ne. intros H. apply E. eapply append_inj. exact H.
Qed.

Lemma flatten_other (p : string) (l : list Media) (m : gmap string JSONValue) (key : string) :
  (forall k, key <> String.append p k) ->
  fold_left (flatten p) l m !! key = m !! key.
Proof.
  intros Hk. revert m. induction l as [|x l IH]; intros m; [reflexivity|].
  cbn [fold_left]. rewrite IH. unfold flatten. apply lookup_insert_ne.
  intros H. apply (Hk (Key x)). symmetry. exact H.
Qed.

Ltac other_prefix :=
  let k := fresh "k" in let H := fresh "H" in
  intros k H; simpl in H; discriminate H.

Lemma response_images (c : MRContent) (k : string) :
  transformMRContentResponse c !! String.append "images_" k
  = JString <$> last_value k (elems (Images c)).
Proof.
  unfold transformMRContentResponse.
  rewrite (flatten_other "objects_3d_") by other_prefix.
  rewrite (flatten_other "videos_") by other_prefix.
  rewrite flatten_lookup. destruct (last_value k (elems (Images c))); [reflexivity|].
  simpl. unfold base_response. simpl. reflexivity.
Qed.

Lemma response_videos (c : MRContent) (k : string) :
  transformMRContentResponse c !! String.append "videos_" k
  = JString <$> last_value k (elems (Videos c)).
Proof.
  unfold transformMRContentResponse.
  rewrite (flatten_other "objects_3d_") by other_prefix.
  rewrite flatten_lookup. destruct (last_value k (elems (Videos c))); [reflexivity|].
  rewrite (flatten_other "images_") by other_prefix.
  simpl. unfold base_response. simpl. reflexivity.
Qed.

Lemma response_objects (c : MRContent) (k : string) :
  transformMRContentResponse c !! String.append "objects_3d_" k
  = JString <$> last_value k (elems (Objects_3D c)).
Proof.
  unfold transformMRContentResponse.
  rewrite flatten_lookup. destruct (last_value k (elems (Objects_3D c))); [reflexivity|].
  rewrite (flatten_other "videos_") by other_prefix.
  rewrite (flatten_other "images_") by other_prefix.
  simpl. unfold base_response. simpl. reflexivity.
Qed.

Lemma response_base (c : MRContent) (key : string) :
  (forall k, key <> String.append "images_" k) ->
  (forall k, key <> String.append "videos_" k) ->
  (forall k, key <> String.append "objects_3d_" k) ->
  transformMRContentResponse c !! key = base_response c !! key.
Proof.
  intros Hi Hv Ho. unfold transformMRContentResponse.
  rewrite (flatten_other "objects_3d_") by exact Ho.
  rewrite (flatten_other "videos_") by exact Hv.
  apply (flatten_other "images_"). exact Hi.
Qed.

(** X11. In the flattened response the twelve fields of the record are
    always present with the record's values, whatever keys the media
    lists use, and under [images_k], [videos_k] and [objects_3d_k] stands
    the value of the last entry of that list under the key [k], or
    nothing when the list has no such key. *)
Theorem transformMRContentResponse_fields (c : MRContent) :
  let response := transformMRContentResponse c in
  response !! "id" = Some (JObjectID (ID c))
  /\ response !! "organization_id" = Some (JObjectID (OrganizationID c))
  /\ response !! "user_id" = Some (JObjectID (UserID c))
  /\ response !! "name" = Some (JString (Name c))
  /\ response !! "ref_id" = Some (JString (RefID c))
  /\ response !! "render_type" = Some (JString (RenderType c))
  /\ response !! "has_alpha" = Some (JBool (HasAlpha c))
  /\ response !! "orientation" = Some (JString (Orientation c))
  /\ response !! "status" = Some (JString (Status c))
  /\ response !! "is_active" = Some (JBool (IsActive c))
  /\ response !! "created_at" = Some (JTime (CreatedAt c))
  /\ response !! "updated_at" = Some (JTime (UpdatedAt c))
  /\ (forall k : string,
        response !! String.append "images_" k
        = JString <$> last_value k (elems (Images c)))
  /\ (forall k : string,
        response !! String.append "videos_" k
        = JString <$> last_value k (elems (Videos c)))
  /\ (forall k : string,
        response !! String.append "objects_3d_" k
        = JString <$> last_value k (elems (Objects_3D c))).
Proof.
  intros response. unfold response.
  repeat (split; [rewrite response_base by other_prefix; reflexivity|]).
  split; [apply response_images|]. split; [apply response_videos|apply response_objects].
Qed.

Lemma last_value_updated (l : list Media) (k v : string) :
  NoDup (keys l) -> last_value k (updated l k v) = Some v.
Proof.
  intros Hnd. apply last_value_NoDup; [apply updated_NoDup; exact Hnd|].
  destruct (updated_first l k v) as [i Hi].
  apply list_find_Some in Hi. destruct Hi as (Hi & _).
  apply list_elem_of_lookup. exists i. exact Hi.
Qed.

Lemma last_value_updated_other (l : list Media) (k k' v : string) :
  k' <> k -> last_value k' (updated l k v) = last_value k' l.
Proof.
  intros Hne. induction l as [|m l IH].
  - rewrite updated_nil. simpl. rewrite decide_False by (intros E; apply Hne; symmetry; exact E).
    reflexivity.
  - destruct (decide (Key m = k)) as [E|E].
    + subst k. rewrite updated_hit. cbn [last_value Key Value].
      destruct (last_value k' l); [reflexivity|].
      repeat case_decide; congruence.
    + rewrite updated_miss by exact E. cbn [last_value]. rewrite IH. reflexivity.
Qed.

(** X12. Written with [updateMediaField] into a list whose keys are
    pairwise distinct, a value is what the response shows under that key,
    and what it shows under the other keys of the list is as before. *)
Theorem response_shows_the_update (c c' : MRContent) (k v : string) :
  NoDup (keys (elems (Videos c))) ->
  Videos c' = updateMediaField (Videos c) k v ->
  transformMRContentResponse c' !! String.append "videos_" k = Some (JString v)
  /\ (forall k' : string, k' <> k ->
        transformMRContentResponse c' !! String.append "videos_" k'
        = transformMRContentResponse c !! String.append "videos_" k').
Proof.
  intros Hnd Hv. split.
  - rewrite response_videos, Hv, updateMediaField_elems. cbn [elems].
    rewrite last_value_updated by exact Hnd. reflexivity.
  - intros k' Hne. rewrite !response_videos, Hv, updateMediaField_elems. cbn [elems].
    rewrite last_value_updated_other by exact Hne. reflexivity.
Qed.

Lemma response_shows_the_update_witness :
  transformMRContentResponse
    (apply_set (with_videos (updateMediaField (Videos video_mask_record) "hls" "v.m3u8")
                  empty_set) video_mask_record)
    !! "videos_hls" = Some (JString "v.m3u8").
Proof.
  apply (response_shows_the_update video_mask_record _ "hls" "v.m3u8").
  - apply (bool_decide_unpack _). vm_compute. exact I.
  - reflexivity.
Defined.

(** ** The window of a listing *)

(** X13. [ListMRContents] always uses a page size of at least 1 (10
    unless a larger-than-zero size was scanned); a requested page [p >= 1]
    whose offset fits an [int] is skipped to exactly and reported back as
    [p]; without a usable page the offset is 0 and the page reported is 1;
    and the reported number of pages is the least number of pages of that
    size that hold [total] records. *)
Theorem ListMRContents_window (limitQuery pageQuery : QueryInt) (total : Z) :
  (forall z, limitQuery = Scanned z -> is_int z) ->
  (forall p, pageQuery = Scanned p -> is_int p) ->
  let limit := list_limit limitQuery in
  let skip := list_skip limit pageQuery in
  1 <= limit <= max_int
  /\ (forall z, limitQuery = Scanned z -> 1 <= z -> limit = z)
  /\ ((forall z, limitQuery = Scanned z -> z < 1) -> limit = 10)
  /\ (forall p, pageQuery = Scanned p -> 1 <= p -> (p - 1) * limit <= max_int ->
        skip = (p - 1) * limit /\ list_page skip limit = p)
  /\ ((forall p, pageQuery = Scanned p -> p < 1) ->
        skip = 0 /\ list_page skip limit = 1)
  /\ (0 <= total -> total + limit <= max_int ->
        (list_total_pages total limit - 1) * limit < total
        /\ total <= list_total_pages total limit * limit).
Proof.
  intros Hint Hpint limit skip.
  assert (Hl : 1 <= limit <= max_int).
  { unfold limit, list_limit. destruct limitQuery as [| |z]; try (unfold max_int; lia).
    specialize (Hint z eq_refl). unfold is_int in Hint.
    destruct (z <? 1) eqn:E; [unfold max_int; lia|]. apply Z.ltb_ge in E. lia. }
  assert (Hw : forall z, 0 <= z <= max_int -> int_wrap z = z).
  { intros z Hz. apply int_wrap_id. unfold is_int, min_int, max_int in *. lia. }
  split; [exact Hl|]. split; [|split; [|split; [|split]]].
  - intros z -> Hz. unfold limit, list_limit.
    destruct (z <? 1) eqn:E; [apply Z.ltb_lt in E; lia|reflexivity].
  - intros H. unfold limit, list_limit. destruct limitQuery as [| |z]; try reflexivity.
    specialize (H z eq_refl). destruct (z <? 1) eqn:E; [reflexivity|].
    apply Z.ltb_ge in E. lia.
  - intros p Hp Hp1 Hfit.
    assert (Hs : skip = (p - 1) * limit).
    { unfold skip, list_skip. rewrite Hp.
      destruct (0 <? p) eqn:E; [|apply Z.ltb_ge in E; lia].
      unfold int_mul. rewrite (Hw (p - 1)) by nia. apply Hw. nia. }
    split; [exact Hs|]. rewrite Hs. unfold list_page, int_add.
    rewrite Z.quot_mul by lia. specialize (Hpint p Hp). unfold is_int in Hpint.
    rewrite Hw by lia. lia.
  - intros H.
    assert (Hs : skip = 0).
    { unfold skip, list_skip. destruct pageQuery as [| |p]; try reflexivity.
      specialize (H p eq_refl). destruct (0 <? p) eqn:E; [apply Z.ltb_lt in E; lia|reflexivity]. }
    split; [exact Hs|]. rewrite Hs. unfold list_page, int_add.
    rewrite Z.quot_0_l by lia. reflexivity.
  - intros Ht Hfit. unfold list_total_pages, int_add.
    rewrite (Hw (total + limit)) by lia. rewrite (Hw (total + limit - 1)) by lia.
    rewrite Z.quot_div_nonneg by lia.
    pose proof (Z.div_mod (total + limit - 1) limit ltac:(lia)) as Hd.
    pose proof (Z.mod_pos_bound (total + limit - 1) limit ltac:(lia)) as Hm.
    split; nia.
Qed.

Lemma ListMRContents_window_witness :
  list_limit (Scanned 25) = 25
  /\ list_skip (list_limit (Scanned 25)) (Scanned 3) = 50
  /\ list_page (list_skip (list_limit (Scanned 25)) (Scanned 3)) (list_limit (Scanned 25)) = 3.
Proof.
  pose proof (ListMRContents_window (Scanned 25) (Scanned 3) 60) as H.
  cbv zeta in H. destruct H as (_ & H1 & _ & H2 & _).
  - intros z [= <-]. unfold is_int, min_int, max_int. lia.
  - intros z [= <-]. unfold is_int, min_int, max_int. lia.
  - specialize (H1 25 eq_refl ltac:(lia)).
    specialize (H2 3 eq_refl ltac:(lia)). rewrite H1 in *.
    destruct H2 as [Hs Hp]; [unfold max_int; lia|].
    split; [reflexivity|]. split; [exact Hs|exact Hp].
Defined.
